(** * doc-search: a shallow embedding of the worker and its specification

    The worker (src/index.ts, src/auth.ts, schema.sql) is a Hono application
    running on Cloudflare Workers.  It keeps file metadata and tags in a D1
    (SQLite) database, file contents in an R2 bucket, and serves seven routes.
    This development embeds the latest revision of the handlers (the one with
    the tag-replace route and the Telegram webhook) and checks the statements
    of the specification against it.

    Conventions of the embedding:
    - text is [string]: a sequence of 8-bit code units, read as the part of a
      JavaScript string whose UTF-16 code units are below 256 (Latin-1);
    - the integers stored in the database are [Z]; a number of a JSON value
      is held as the text JavaScript writes it with;
    - a handler is a computation in the monad [M]: it reads and writes the
      [World] (database, bucket, edge cache, messages sent) and may throw;
    - what the platform decides (whether a store call rejects, the outcome of
      [fetch], the fresh UUID, the clock) is an explicit [Platform] argument. *)

From stdpp Require Import base option list sorting gmap strings pretty.
From Stdlib Require Import ZArith Ascii.

Local Open Scope Z_scope.

(* ====================================================================== *)
(** * Text: the string methods the handlers call *)
(* ====================================================================== *)

Module Text.

(** The code points below 256 that ECMAScript counts as WhiteSpace or
    LineTerminator: TAB, LF, VT, FF, CR, SP and NBSP.  They are what
    [String.prototype.trim] strips and what the regular expression [\s]
    matches. *)
Definition is_space (c : ascii) : bool :=
  let n := N_of_ascii c in
  ((9 <=? n) && (n <=? 13) || (n =? 32) || (n =? 160))%N.

Fixpoint trimStart (s : string) : string :=
  match s with
  | EmptyString => EmptyString
  | String c s' => if is_space c then trimStart s' else s
  end.

Fixpoint trimEnd (s : string) : string :=
  match s with
  | EmptyString => EmptyString
  | String c s' =>
      match trimEnd s' with
      | EmptyString => if is_space c then EmptyString else String c EmptyString
      | r => String c r
      end
  end.

(** [s.trim()] *)
Definition trim (s : string) : string := trimEnd (trimStart s).

(** Lowercasing of one code unit below 256: A-Z, and the Latin-1 capitals
    U+00C0..U+00D6 and U+00D8..U+00DE, move up by 32. *)
Definition lower_char (c : ascii) : ascii :=
  let n := N_of_ascii c in
  if ((65 <=? n) && (n <=? 90) || (192 <=? n) && (n <=? 214)
      || (216 <=? n) && (n <=? 222))%N
  then ascii_of_N (n + 32) else c.

(** [s.toLowerCase()] *)
Fixpoint toLowerCase (s : string) : string :=
  match s with
  | EmptyString => EmptyString
  | String c s' => String (lower_char c) (toLowerCase s')
  end.

(** [s.length > 0] *)
Definition nonempty (s : string) : bool :=
  match s with EmptyString => false | String _ _ => true end.

(** Puts a code unit in front of the first piece of a split. *)
Definition cons_piece (c : ascii) (ps : list string) : list string :=
  match ps with
  | p :: ps' => String c p :: ps'
  | [] => [String c EmptyString]
  end.

(** [s.split(/\s+/)]: the pieces between maximal runs of white space, the
    empty pieces at either end included.  [in_gap] records that the previous
    code unit belonged to a separator. *)
Fixpoint split_spaces_from (in_gap : bool) (s : string) : list string :=
  match s with
  | EmptyString => [EmptyString]
  | String c s' =>
      if is_space c then
        if in_gap then split_spaces_from true s'
        else EmptyString :: split_spaces_from true s'
      else cons_piece c (split_spaces_from false s')
  end.

Definition split_spaces (s : string) : list string := split_spaces_from false s.

(** [s.split(sep)] for a one-character separator. *)
Fixpoint split (sep : ascii) (s : string) : list string :=
  match s with
  | EmptyString => [EmptyString]
  | String c s' =>
      if Ascii.eqb c sep then EmptyString :: split sep s'
      else cons_piece c (split sep s')
  end.

(** [parts.join(sep)], which is also what SQLite's [GROUP_CONCAT] builds. *)
Fixpoint join (sep : string) (parts : list string) : string :=
  match parts with
  | [] => EmptyString
  | [p] => p
  | p :: ps => p +:+ sep +:+ join sep ps
  end.

(** Whether the character occurs in the text. *)
Fixpoint mem (c : ascii) (s : string) : bool :=
  match s with
  | EmptyString => false
  | String d s' => Ascii.eqb d c || mem c s'
  end.

Definition hex_digit (n : N) : ascii :=
  ascii_of_N (if (n <? 10)%N then 48 + n else 55 + n).

(** ["%XX"] for one byte. *)
Definition percent (n : N) (rest : string) : string :=
  String "%" (String (hex_digit (n / 16)) (String (hex_digit (n mod 16)) rest)).

(** The characters [encodeURIComponent] leaves alone: letters, digits and
    - _ . ! ~ * ' ( ) *)
Definition uri_unreserved (c : ascii) : bool :=
  let n := N_of_ascii c in
  ((48 <=? n) && (n <=? 57) || (65 <=? n) && (n <=? 90)
   || (97 <=? n) && (n <=? 122)
   || (n =? 45) || (n =? 95) || (n =? 46) || (n =? 33) || (n =? 126)
   || (n =? 42) || (n =? 39) || (n =? 40) || (n =? 41))%N.

(** [encodeURIComponent(s)]: every other character is written as the
    percent-escapes of its UTF-8 bytes (one byte below 128, two above). *)
Fixpoint encodeURIComponent (s : string) : string :=
  match s with
  | EmptyString => EmptyString
  | String c s' =>
      let n := N_of_ascii c in
      if uri_unreserved c then String c (encodeURIComponent s')
      else if (n <? 128)%N then percent n (encodeURIComponent s')
      else percent (192 + n / 64) (percent (128 + n mod 64) (encodeURIComponent s'))
  end.

(** The double quote character, as a text. *)
Definition dquote : string := String (ascii_of_N 34) EmptyString.

End Text.

(* ====================================================================== *)
(** * Exceptions *)
(* ====================================================================== *)

Inductive exn : Type :=
| TypeError      (* property read on null/undefined, call of a non-function,
                    conversion of an object that has no primitive value *)
| SyntaxError    (* the request body is not JSON *)
| StoreError     (* a D1 or R2 call rejected *)
| NetworkError.  (* fetch rejected *)

Inductive outcome (A : Type) : Type :=
| Return (a : A)
| Throw (e : exn).
Arguments Return {A} a.
Arguments Throw {A} e.

(** [items.map(f)] for a callback that may throw: the first throw ends the
    loop and is the outcome of the call. *)
Section map_throwing.
Context {A B : Type} (f : A → outcome B).

Fixpoint map_throwing (l : list A) : outcome (list B) :=
  match l with
  | [] => Return []
  | x :: l' =>
      match f x with
      | Return y =>
          match map_throwing l' with
          | Return ys => Return (y :: ys)
          | Throw e => Throw e
          end
      | Throw e => Throw e
      end
  end.
End map_throwing.

(* ====================================================================== *)
(** * JSON values, as [c.req.json()] delivers them and [c.json] sends them *)
(* ====================================================================== *)

Module Json.

(** A number is held as the text that [String] (Number::toString) gives for
    it, which is also how [JSON.stringify] writes it.  [JSON.parse] has
    rounded the literal to a double before the handler sees the value: the
    literal 9007199254740993 arrives as [JNum "9007199254740992"], 1e21 as
    [JNum "1e+21"], 1.50 as [JNum "1.5"] and -0 as [JNum "0"].  A value of
    type [option json] that is [None] stands for JavaScript's [undefined]. *)
#[local] Unset Elimination Schemes.
Inductive json : Type :=
| JNull
| JBool (b : bool)
| JNum (text : string)
| JStr (s : string)
| JArr (items : list json)
| JObj (fields : list (string * json)).
#[local] Set Elimination Schemes.

(** An own property of an object literal; [JSON.parse] keeps the last of
    several fields with one name. *)
Definition field (k : string) (fields : list (string * json)) : option json :=
  snd <$> last (filter (λ kv, kv.1 = k) fields).

(** [Array.isArray(v)] *)
Definition isArray (v : option json) : bool :=
  match v with Some (JArr _) => true | _ => false end.

(** Truthiness, as [!v] and [v ? a : b] test it; the numbers that are not
    truthy are 0, -0 and NaN. *)
Definition truthy (v : option json) : bool :=
  match v with
  | None | Some JNull => false
  | Some (JBool b) => b
  | Some (JNum text) => negb (String.eqb text "0" || String.eqb text "NaN")
  | Some (JStr s) => Text.nonempty s
  | Some (JArr _) | Some (JObj _) => true
  end.

(** [String(v)].  A string is itself.  An array is its elements joined by
    commas ([Array.prototype.join]), each converted in the same way, with
    [null] elements left empty.  An object is converted by its [toString]
    property: a parsed object that has no own field of that name inherits
    [Object.prototype.toString] and is ["[object Object]"]; one that has such
    a field has a value there that cannot be called, [valueOf] yields no
    primitive either, and the conversion throws a TypeError. *)
Fixpoint toString (v : json) : outcome string :=
  match v with
  | JNull => Return "null"
  | JBool true => Return "true"
  | JBool false => Return "false"
  | JNum text => Return text
  | JStr s => Return s
  | JArr items =>
      match map_throwing
              (λ x, match x with JNull => Return "" | _ => toString x end)
              items with
      | Return parts => Return (Text.join "," parts)
      | Throw e => Throw e
      end
  | JObj fields =>
      match field "toString" fields with
      | Some _ => Throw TypeError
      | None => Return "[object Object]"
      end
  end.

End Json.
Export Json.

(* ====================================================================== *)
(** * Property reads *)
(* ====================================================================== *)

(** [x.k] for a value that may be [undefined]: reading a property of [null] or
    [undefined] throws; an object yields its field; the other values have no
    property of the names the handlers read (message, text, chat, id, tags). *)
Definition prop (v : option json) (k : string) : outcome (option json) :=
  match v with
  | None | Some JNull => Throw TypeError
  | Some (JObj fields) => Return (field k fields)
  | Some _ => Return None
  end.

(* ====================================================================== *)
(** * The D1 database (schema.sql) *)
(* ====================================================================== *)

(** [CREATE TABLE files (id TEXT PRIMARY KEY, filename TEXT NOT NULL,
    r2_key TEXT NOT NULL, size INTEGER, created_at INTEGER)] *)
Record FileRow : Type := mkFile {
  f_id : string;
  f_filename : string;
  f_r2_key : string;
  f_size : Z;
  f_created_at : Z
}.

(** [CREATE TABLE file_tags (file_id TEXT NOT NULL, tag TEXT NOT NULL,
    PRIMARY KEY (file_id, tag),
    FOREIGN KEY (file_id) REFERENCES files(id) ON DELETE CASCADE)] *)
Record TagRow : Type := mkTag {
  ft_file_id : string;
  ft_tag : string
}.

Global Instance FileRow_eq_dec : EqDecision FileRow.
Proof. solve_decision. Defined.
Global Instance TagRow_eq_dec : EqDecision TagRow.
Proof. solve_decision. Defined.

(** The two tables in row order.  [foreign_keys] is the database's
    [PRAGMA foreign_keys]: SQLite applies the FOREIGN KEY clause of the schema
    only when it is on, and the handlers are written to work either way. *)
Record DB : Type := mkDB {
  foreign_keys : bool;
  files : list FileRow;
  file_tags : list TagRow
}.

Definition has_file (d : DB) (i : string) : bool :=
  bool_decide (i ∈ f_id <$> files d).

Definition has_tag (d : DB) (i t : string) : bool :=
  bool_decide (mkTag i t ∈ file_tags d).

(** The tags of one file, in row order. *)
Definition tags_of (d : DB) (i : string) : list string :=
  ft_tag <$> filter (λ r, ft_file_id r = i) (file_tags d).

(** The key constraints of the schema. *)
Record db_keys (d : DB) : Prop := {
  files_pk : NoDup (f_id <$> files d);
  file_tags_pk : NoDup (file_tags d)
}.

(** Referential integrity: every tag row belongs to a file row. *)
Definition ref_integrity (d : DB) : Prop :=
  ∀ r, r ∈ file_tags d → ft_file_id r ∈ f_id <$> files d.

Global Instance ref_integrity_dec (d : DB) : Decision (ref_integrity d).
Proof.
  refine (cast_if (decide (Forall (λ r, ft_file_id r ∈ f_id <$> files d) (file_tags d))));
    unfold ref_integrity; by rewrite Forall_forall in *.
Defined.

(** ** The statements the handlers prepare *)

Inductive Stmt : Type :=
| InsertFile (row : FileRow)
    (* INSERT INTO files (id, filename, r2_key, size, created_at) VALUES (?,?,?,?,?) *)
| InsertOrIgnoreTag (i t : string)
    (* INSERT OR IGNORE INTO file_tags (file_id, tag) VALUES (?, ?) *)
| DeleteTags (i : string)
    (* DELETE FROM file_tags WHERE file_id = ? *)
| DeleteFile (i : string).
    (* DELETE FROM files WHERE id = ? *)

(** One statement.  A second file row with the same id violates the primary
    key and fails; a tag row that is already there is ignored; a new tag row
    for a missing file fails when foreign keys are enforced; deleting a file
    row cascades to its tag rows when foreign keys are enforced. *)
Definition exec (s : Stmt) (d : DB) : outcome DB :=
  match s with
  | InsertFile row =>
      if has_file d (f_id row) then Throw StoreError
      else Return (mkDB (foreign_keys d) (files d ++ [row]) (file_tags d))
  | InsertOrIgnoreTag i t =>
      if has_tag d i t then Return d
      else if foreign_keys d && negb (has_file d i) then Throw StoreError
      else Return (mkDB (foreign_keys d) (files d) (file_tags d ++ [mkTag i t]))
  | DeleteTags i =>
      Return (mkDB (foreign_keys d) (files d)
                (filter (λ r, ft_file_id r ≠ i) (file_tags d)))
  | DeleteFile i =>
      Return (mkDB (foreign_keys d)
                (filter (λ f, f_id f ≠ i) (files d))
                (if foreign_keys d
                 then filter (λ r, ft_file_id r ≠ i) (file_tags d)
                 else file_tags d))
  end.

(** [DB.batch(stmts)]: the statements in order, as one transaction; the
    caller keeps the old database when one of them fails. *)
Fixpoint exec_all (ss : list Stmt) (d : DB) : outcome DB :=
  match ss with
  | [] => Return d
  | s :: ss' =>
      match exec s d with
      | Return d' => exec_all ss' d'
      | Throw e => Throw e
      end
  end.

(** [SELECT ... FROM files WHERE id = ?] followed by [.first()] *)
Definition select_file (d : DB) (i : string) : option FileRow :=
  head (filter (λ f, f_id f = i) (files d)).

(** ** LIKE *)

(** SQLite's LIKE folds the 26 ASCII letters and nothing else. *)
Definition fold_case (c : ascii) : ascii :=
  let n := N_of_ascii c in
  if ((65 <=? n) && (n <=? 90))%N then ascii_of_N (n + 32) else c.

Definition char_like (a b : ascii) : bool := Ascii.eqb (fold_case a) (fold_case b).

(** [s LIKE p] without ESCAPE: [%] stands for any run of characters, [_] for
    any one character, every other character for itself up to ASCII case. *)
Fixpoint like (p s : string) : bool :=
  match p with
  | EmptyString => negb (Text.nonempty s)
  | String c p' =>
      if Ascii.eqb c "%" then
        (fix any (s : string) : bool :=
           like p' s || match s with
                        | EmptyString => false
                        | String _ s' => any s'
                        end) s
      else
        match s with
        | EmptyString => false
        | String d s' =>
            (if Ascii.eqb c "_" then true else char_like c d) && like p' s'
        end
  end.

(** The bound parameter of both searches: [`%${query}%`]. *)
Definition term_of (query : string) : string := "%" +:+ query +:+ "%".

(** ** The query of GET /api/search *)

(** A row of the result set: [f.id, f.filename, f.size, f.created_at] and the
    aggregate [tags_str], which is NULL for a file without tag rows. *)
Record SearchRow : Type := mkSearchRow {
  s_id : string;
  s_filename : string;
  s_size : Z;
  s_created_at : Z;
  s_tags_str : option string
}.

Global Instance SearchRow_eq_dec : EqDecision SearchRow.
Proof. solve_decision. Defined.

(** [(SELECT GROUP_CONCAT(tag) FROM file_tags WHERE file_id = f.id)] *)
Definition group_concat (ts : list string) : option string :=
  match ts with
  | [] => None
  | _ => Some (Text.join "," ts)
  end.

(** [f.filename LIKE ? OR EXISTS (SELECT 1 FROM file_tags
     WHERE file_id = f.id AND tag LIKE ?)] *)
Definition search_where (d : DB) (term : string) (f : FileRow) : bool :=
  like term (f_filename f)
  || existsb (λ r, bool_decide (ft_file_id r = f_id f) && like term (ft_tag r))
       (file_tags d).

Definition search_select (d : DB) (f : FileRow) : SearchRow :=
  mkSearchRow (f_id f) (f_filename f) (f_size f) (f_created_at f)
    (group_concat (tags_of d (f_id f))).

(** [ORDER BY f.created_at DESC]: [a] may stand before [b]. *)
Definition newer (a b : SearchRow) : Prop := s_created_at b ≤ s_created_at a.

Global Instance newer_dec : RelDecision newer.
Proof. intros a b. unfold newer. apply _. Defined.

(** The whole statement: WHERE, the select list, ORDER BY, LIMIT 50.  Rows
    with one timestamp come in the order the sort leaves them; SQLite
    promises none. *)
Definition search_sql (d : DB) (term : string) : list SearchRow :=
  take 50 (merge_sort newer
             (search_select d <$> filter (λ f, search_where d term f) (files d))).

(** ** The query of POST /api/telegram *)

(** [files f LEFT JOIN file_tags ft ON f.id = ft.file_id]: a file without tag
    rows is paired once, with NULLs. *)
Definition left_join (d : DB) : list (FileRow * option TagRow) :=
  f ← files d;
  match filter (λ r, ft_file_id r = f_id f) (file_tags d) with
  | [] => [(f, None)]
  | ts => (λ t, (f, Some t)) <$> ts
  end.

(** [f.filename LIKE ? OR ft.tag LIKE ?]; LIKE on a NULL tag is not true. *)
Definition join_where (term : string) (r : FileRow * option TagRow) : bool :=
  like term (f_filename r.1)
  || match r.2 with
     | Some t => like term (ft_tag t)
     | None => false
     end.

Definition newer_joined (a b : FileRow * option TagRow) : Prop :=
  f_created_at b.1 ≤ f_created_at a.1.

Global Instance newer_joined_dec : RelDecision newer_joined.
Proof. intros a b. unfold newer_joined. apply _. Defined.

(** [SELECT DISTINCT f.id, f.filename, f.size ... ORDER BY f.created_at DESC
    LIMIT 10] *)
Definition telegram_sql (d : DB) (term : string) : list (string * string * Z) :=
  take 10 (remove_dups
             ((λ r, (f_id r.1, f_filename r.1, f_size r.1))
                <$> merge_sort newer_joined (filter (λ r, join_where term r) (left_join d)))).

(* ====================================================================== *)
(** * The worker's bindings, the world it acts on, and the platform *)
(* ====================================================================== *)

(** [type Bindings]: the configured secrets ([DB] and [BUCKET] are part of
    the [World]). *)
Record Env : Type := mkEnv {
  TEAM_PASSWORD : string;
  ADMIN_PASSWORD : string;
  TG_BOT_TOKEN : string
}.

(** An object of the R2 bucket: the bytes, [httpMetadata.contentType], and
    the entity tag R2 gave it. *)
Record R2Object : Type := mkObject {
  o_body : string;
  o_contentType : option string;
  o_httpEtag : string
}.

Inductive Body : Type :=
| BJson (j : json)      (* c.json(j, status) *)
| BText (s : string)    (* c.text(s, status) *)
| BStream (b : string). (* new Response(object.body, ...) *)

(** A response: status, the headers the handler sets itself, and the body. *)
Record Response : Type := mkResponse {
  status : Z;
  headers : list (string * string);
  body : Body
}.

(** What the files of a reply look like: name, size, and the direct link. *)
Record TgEntry : Type := mkTgEntry {
  e_filename : string;
  e_size : Z;
  e_link : string
}.

(** The [sendMessage] call of the webhook: the chat it answers and either
    the text that found nothing or one entry per file found.  (The rendering
    of the size in megabytes with two decimals is left out.) *)
Record TgMessage : Type := mkTgMessage {
  m_bot : string;
  m_chat_id : option json;
  m_query : string;
  m_entries : list TgEntry
}.

Record World : Type := mkWorld {
  db : DB;
  bucket : gmap string R2Object;    (* c.env.BUCKET *)
  cache : gmap string Response;     (* caches.default, keyed by request URL *)
  outbox : list TgMessage           (* requests that reached api.telegram.org *)
}.

(** The outcome of [fetch]: it resolves with some HTTP status, or rejects. *)
Inductive FetchOutcome : Type :=
| Resolves (http_status : Z)
| Rejects.

(** What the platform decides during one invocation. *)
Record Platform : Type := mkPlatform {
  db_rejects : nat → bool;      (* the k-th awaited D1 call rejects *)
  bucket_rejects : nat → bool;  (* the k-th awaited R2 call rejects *)
  fetch_outcome : FetchOutcome; (* of the call to api.telegram.org *)
  cache_keeps : bool;           (* the edge cache retains what is put *)
  randomUUID : string;          (* crypto.randomUUID() *)
  now : Z;                      (* Date.now() *)
  new_etag : string             (* the etag R2 gives the object put *)
}.

(** A file of a multipart form. *)
Record File : Type := mkFormFile {
  file_name : string;
  file_type : string;
  file_size : Z;
  file_stream : string
}.

Inductive FormValue : Type :=
| FText (s : string)
| FFile (f : File).

(** The Hono context of one request. *)
Record Context : Type := mkContext {
  env : Env;
  cookie : option string;          (* getCookie(c, AUTH_COOKIE_NAME) *)
  req_url : string;                (* c.req.url *)
  req_origin : string;             (* new URL(c.req.url).origin *)
  req_query : gmap string string;  (* c.req.query(name) *)
  req_param_id : string;           (* c.req.param('id') *)
  req_json : outcome json;         (* await c.req.json() *)
  req_form : gmap string FormValue (* await c.req.parseBody() *)
}.

(** ** The monad of handlers: state that survives a throw *)

Definition M (A : Type) : Type := World → outcome A * World.

Definition ret {A} (a : A) : M A := λ w, (Return a, w).

Definition throw {A} (e : exn) : M A := λ w, (Throw e, w).

Definition bind {A B} (m : M A) (k : A → M B) : M B :=
  λ w, match m w with
       | (Return a, w') => k a w'
       | (Throw e, w') => (Throw e, w')
       end.

(** [try { m } catch (e) { h e }] *)
Definition try_catch {A} (m : M A) (h : exn → M A) : M A :=
  λ w, match m w with
       | (Return a, w') => (Return a, w')
       | (Throw e, w') => h e w'
       end.

Definition lift {A} (o : outcome A) : M A := λ w, (o, w).

Notation "'let!' x := m 'in' k" := (bind m (λ x, k))
  (at level 10, x pattern, m at level 100, k at level 200).
Notation "'do!' m 'in' k" := (bind m (λ _, k))
  (at level 10, m at level 100, k at level 200).

(** ** Store calls *)

Section store.
Context (p : Platform).

(** A read of the database: [prepare(...).bind(...).all()] or [.first()]. *)
Definition db_read {A} (k : nat) (q : DB → A) : M A :=
  λ w, if db_rejects p k then (Throw StoreError, w) else (Return (q (db w)), w).

(** [DB.batch(stmts)], and [prepare(...).run()] as a batch of one. *)
Definition db_batch (k : nat) (ss : list Stmt) : M unit :=
  λ w, if db_rejects p k then (Throw StoreError, w)
       else match exec_all ss (db w) with
            | Return d' => (Return (), mkWorld d' (bucket w) (cache w) (outbox w))
            | Throw e => (Throw e, w)
            end.

Definition bucket_get (k : nat) (key : string) : M (option R2Object) :=
  λ w, if bucket_rejects p k then (Throw StoreError, w)
       else (Return (bucket w !! key), w).

Definition bucket_put (k : nat) (key : string) (o : R2Object) : M unit :=
  λ w, if bucket_rejects p k then (Throw StoreError, w)
       else (Return (), mkWorld (db w) (<[key := o]> (bucket w)) (cache w) (outbox w)).

Definition bucket_delete (k : nat) (key : string) : M unit :=
  λ w, if bucket_rejects p k then (Throw StoreError, w)
       else (Return (), mkWorld (db w) (delete key (bucket w)) (cache w) (outbox w)).

(** [cache.match(key)] *)
Definition cache_match (key : string) : M (option Response) :=
  λ w, (Return (cache w !! key), w).

(** [c.executionCtx.waitUntil(cache.put(key, response.clone()))]: the write
    is not awaited; the cache holds the copy afterwards if it keeps it. *)
Definition cache_put (key : string) (r : Response) : M unit :=
  λ w, (Return (),
        if cache_keeps p
        then mkWorld (db w) (bucket w) (<[key := r]> (cache w)) (outbox w)
        else w).

(** [await fetch(".../sendMessage", ...)]: a request that got an answer
    reached the service, whatever the status of the answer. *)
Definition fetch_sendMessage (m : TgMessage) : M Z :=
  λ w, match fetch_outcome p with
       | Resolves st => (Return st, mkWorld (db w) (bucket w) (cache w) (outbox w ++ [m]))
       | Rejects => (Throw NetworkError, w)
       end.
End store.

(** ** Responses *)

Definition c_json (j : json) (st : Z) : Response := mkResponse st [] (BJson j).
Definition c_text (s : string) (st : Z) : Response := mkResponse st [] (BText s).

(** [c.notFound()] *)
Definition c_notFound : Response := c_text "404 Not Found" 404.

(** What Hono answers when a handler lets an exception escape. *)
Definition internal_server_error : Response := c_text "Internal Server Error" 500.

(** One request served: the response the caller sees and the world after. *)
Definition serve (h : M Response) (w : World) : Response * World :=
  match h w with
  | (Return r, w') => (r, w')
  | (Throw _, w') => (internal_server_error, w')
  end.

(* ====================================================================== *)
(** * src/auth.ts *)
(* ====================================================================== *)

(** [enum AuthLevel { GUEST = 0, TEAM = 1, ADMIN = 2 }] *)
Inductive AuthLevel : Type := GUEST | TEAM | ADMIN.

Definition level (a : AuthLevel) : Z :=
  match a with GUEST => 0 | TEAM => 1 | ADMIN => 2 end.

(** [a < b] and [a >= b] on levels *)
Definition below (a b : AuthLevel) : bool := level a <? level b.
Definition at_least (a b : AuthLevel) : bool := level b <=? level a.

(** [checkAuth]: the cookie against the admin secret first, then against the
    team secret. *)
Definition checkAuth (c : Context) : AuthLevel :=
  let token := cookie c in
  if bool_decide (token = Some (ADMIN_PASSWORD (env c))) then ADMIN
  else if bool_decide (token = Some (TEAM_PASSWORD (env c))) then TEAM
  else GUEST.

(* ====================================================================== *)
(** * src/index.ts: the handlers *)
(* ====================================================================== *)

Definition unauthorized_json : Response :=
  c_json (JObj [("error", JStr "Unauthorized")]) 401.
Definition unauthorized_text : Response := c_text "Unauthorized" 401.
Definition admin_only : Response :=
  c_json (JObj [("error", JStr "Admin only")]) 403.
Definition success : Response := c_json (JObj [("success", JBool true)]) 200.

(** ** GET /api/search *)

(** [row.tags_str ? row.tags_str.split(',') : []] *)
Definition tags_of_row (r : SearchRow) : list string :=
  match s_tags_str r with
  | Some s => if Text.nonempty s then Text.split "," s else []
  | None => []
  end.

(** [{ ...row, tags: ... }]; the two integers of a row are sizes in bytes and
    times in milliseconds, numbers that are written as their digits. *)
Definition format_row (r : SearchRow) : json :=
  JObj [("id", JStr (s_id r));
        ("filename", JStr (s_filename r));
        ("size", JNum (pretty (s_size r)));
        ("created_at", JNum (pretty (s_created_at r)));
        ("tags_str", match s_tags_str r with Some s => JStr s | None => JNull end);
        ("tags", JArr (JStr <$> tags_of_row r))].

(** [c.req.query('q') || ''] *)
Definition query_q (c : Context) : string := default "" (req_query c !! "q").

Definition search (p : Platform) (c : Context) : M Response :=
  if below (checkAuth c) TEAM then ret unauthorized_json
  else
    let term := term_of (query_q c) in
    let! results := db_read p 0 (λ d, search_sql d term) in
    ret (c_json (JArr (format_row <$> results)) 200).

(** ** GET /api/file/:id *)

(** The cookie at TEAM or above, or else the URL token equal to the team
    secret. *)
Definition isAuth (c : Context) : bool :=
  let urlToken := req_query c !! "token" in
  if at_least (checkAuth c) TEAM then true
  else if bool_decide (urlToken = Some (TEAM_PASSWORD (env c))) then true
  else false.

Definition file_response (f : FileRow) (o : R2Object) : Response :=
  mkResponse 200
    [("etag", o_httpEtag o);
     ("Content-Type",
       match o_contentType o with
       | Some t => if Text.nonempty t then t else "application/octet-stream"
       | None => "application/octet-stream"
       end);
     ("Content-Disposition",
       "inline; filename=" +:+ Text.dquote
         +:+ Text.encodeURIComponent (f_filename f) +:+ Text.dquote);
     ("Cache-Control", "public, max-age=14400")]
    (BStream (o_body o)).

Definition get_file (p : Platform) (c : Context) : M Response :=
  if negb (isAuth c) then ret unauthorized_text
  else
    let cacheKey := req_url c in
    let! cachedResponse := cache_match cacheKey in
    match cachedResponse with
    | Some r => ret r
    | None =>
        let id := req_param_id c in
        let! file := db_read p 0 (λ d, select_file d id) in
        match file with
        | None => ret c_notFound
        | Some f =>
            let! object := bucket_get p 0 (f_r2_key f) in
            match object with
            | None => ret c_notFound
            | Some o =>
                let response := file_response f o in
                do! cache_put p cacheKey response in
                ret response
            end
        end
    end.

(** ** POST /api/upload *)

(** [tagsStr.split(/\s+/).filter(t => t.length > 0)]; the call throws when
    the form has no text field [tags]. *)
Definition upload_tags (tagsStr : option FormValue) : outcome (list string) :=
  match tagsStr with
  | Some (FText s) => Return (filter (λ t, Text.nonempty t) (Text.split_spaces s))
  | _ => Throw TypeError
  end.

Definition upload (p : Platform) (c : Context) : M Response :=
  if below (checkAuth c) ADMIN then ret admin_only
  else
    match req_form c !! "file" with
    | Some (FFile file) =>
        let fileId := randomUUID p in
        let r2Key := fileId in
        do! bucket_put p 0 r2Key
              (mkObject (file_stream file) (Some (file_type file)) (new_etag p)) in
        let! tags := lift (upload_tags (req_form c !! "tags")) in
        let batch :=
          InsertFile (mkFile fileId (file_name file) r2Key (file_size file) (now p))
          :: ((λ tag, InsertOrIgnoreTag fileId (Text.toLowerCase tag)) <$> tags) in
        do! db_batch p 0 batch in
        ret success
    | _ => ret (c_json (JObj [("error", JStr "Invalid file")]) 400)
    end.

(** ** PATCH /api/file/:id/tags *)

(** [String(t).trim().toLowerCase()] *)
Definition tag_text (t : json) : outcome string :=
  match toString t with
  | Return s => Return (Text.toLowerCase (Text.trim s))
  | Throw e => Throw e
  end.

(** [tagsArray.map(t => String(t).trim().toLowerCase()).filter(t => t.length > 0)] *)
Definition sanitize (tagsArray : list json) : outcome (list string) :=
  match map_throwing tag_text tagsArray with
  | Return ts => Return (filter (λ t, Text.nonempty t) ts)
  | Throw e => Throw e
  end.

Definition tags_updated (sanitizedTags : list string) : Response :=
  c_json (JObj [("success", JBool true); ("tags", JArr (JStr <$> sanitizedTags))]) 200.

Definition update_tags (p : Platform) (c : Context) : M Response :=
  if below (checkAuth c) ADMIN then ret admin_only
  else
    let id := req_param_id c in
    try_catch
      (let! body := lift (req_json c) in
       let! tagsArray := lift (prop (Some body) "tags") in
       match tagsArray with
       | Some (JArr items) =>
           let! file := db_read p 0 (λ d, select_file d id) in
           match file with
           | None => ret (c_json (JObj [("error", JStr "File not found")]) 404)
           | Some _ =>
               let! sanitizedTags := lift (sanitize items) in
               let batch := DeleteTags id :: (InsertOrIgnoreTag id <$> sanitizedTags) in
               do! db_batch p 1 batch in
               ret (tags_updated sanitizedTags)
           end
       | _ => ret (c_json (JObj [("error", JStr "Invalid tags payload")]) 400)
       end)
      (λ e, ret (c_json (JObj [("error", JStr "Internal server error")]) 500)).

(** ** DELETE /api/file/:id *)

Definition delete_file (p : Platform) (c : Context) : M Response :=
  if below (checkAuth c) ADMIN then ret admin_only
  else
    let id := req_param_id c in
    let! file := db_read p 0 (λ d, select_file d id) in
    do! match file with
        | Some f =>
            do! bucket_delete p 0 (f_r2_key f) in
            do! db_batch p 1 [DeleteTags id] in
            db_batch p 2 [DeleteFile id]
        | None => ret ()
        end in
    ret success.

(** ** POST /api/telegram *)

Definition ok_true : Response := c_json (JObj [("ok", JBool true)]) 200.
Definition ok_false : Response := c_json (JObj [("ok", JBool false)]) 500.

(** [message.text.trim()]: only a string has the method. *)
Definition trim_method (v : option json) : outcome string :=
  match v with
  | Some (JStr s) => Return (Text.trim s)
  | _ => Throw TypeError
  end.

Definition downloadLink (c : Context) (file_id : string) : string :=
  req_origin c +:+ "/api/file/" +:+ file_id +:+ "?token=" +:+ TEAM_PASSWORD (env c).

Definition telegram (p : Platform) (c : Context) : M Response :=
  try_catch
    (let! update := lift (req_json c) in
     let! message := lift (prop (Some update) "message") in
     if negb (truthy message) then ret ok_true
     else
       let! message_text := lift (prop message "text") in
       if negb (truthy message_text) then ret ok_true
       else
         let! chat := lift (prop message "chat") in
         let! chatId := lift (prop chat "id") in
         let! text := lift (trim_method message_text) in
         let term := term_of text in
         let! results := db_read p 0 (λ d, telegram_sql d term) in
         let entries :=
           (λ file, mkTgEntry file.1.2 file.2 (downloadLink c file.1.1)) <$> results in
         do! fetch_sendMessage p (mkTgMessage (TG_BOT_TOKEN (env c)) chatId text entries) in
         ret ok_true)
    (λ e, ret ok_false).

(* ====================================================================== *)
(** * src/auth.ts: login, and the logout route *)
(* ====================================================================== *)

Definition AUTH_COOKIE_NAME : string := "doc_auth".

(** What a response asks the browser to do with a cookie:
    [setCookie(c, name, value, { path, maxAge, httpOnly, secure })] or
    [deleteCookie(c, name)]. *)
Inductive CookieAction : Type :=
| SetCookie (name value path : string) (maxAge : Z) (httpOnly secure : bool)
| DeleteCookie (name : string).

(** [v === s] for a string [s]: only a string can be equal to it. *)
Definition is_text (v : option json) (s : string) : bool :=
  match v with
  | Some (JStr t) => bool_decide (t = s)
  | _ => false
  end.

(** [setCookie(c, AUTH_COOKIE_NAME, value,
      { path: '/', maxAge: 86400 * 30, httpOnly: true, secure: true })] *)
Definition auth_cookie (value : string) : CookieAction :=
  SetCookie AUTH_COOKIE_NAME value "/" (86400 * 30) true true.

Definition login_ok (lvl : string) : Response :=
  c_json (JObj [("success", JBool true); ("level", JStr lvl)]) 200.

(** The refusal; its [error] text is the four characters of the source, in
    their UTF-8 bytes. *)
Definition login_refused : Response :=
  c_json (JObj [("success", JBool false); ("error", JStr "口令错误")]) 401.

(** [handleLogin]: [const { password } = await c.req.json()], then the
    password against the admin secret first and the team secret second.  The
    second component is the cookie the response sets, if any. *)
Definition handleLogin (c : Context) : outcome (Response * option CookieAction) :=
  match req_json c with
  | Throw e => Throw e
  | Return body =>
      match prop (Some body) "password" with
      | Throw e => Throw e
      | Return password =>
          if is_text password (ADMIN_PASSWORD (env c)) then
            Return (login_ok "admin", Some (auth_cookie (ADMIN_PASSWORD (env c))))
          else if is_text password (TEAM_PASSWORD (env c)) then
            Return (login_ok "team", Some (auth_cookie (TEAM_PASSWORD (env c))))
          else Return (login_refused, None)
      end
  end.

(** [app.post('/api/logout', ...)]: [deleteCookie(c, AUTH_COOKIE_NAME)] and
    [{ success: true }]. *)
Definition logout (c : Context) : outcome (Response * option CookieAction) :=
  Return (success, Some (DeleteCookie AUTH_COOKIE_NAME)).

(** A cookie route served: an exception that escapes is answered 500 and
    sets nothing. *)
Definition serve_cookie (h : outcome (Response * option CookieAction))
    : Response * option CookieAction :=
  match h with
  | Return r => r
  | Throw _ => (internal_server_error, None)
  end.

(** The browser's [doc_auth] cookie after a response. *)
Definition jar_after (jar : option string) (a : option CookieAction) : option string :=
  match a with
  | Some (SetCookie n v _ _ _ _) => if bool_decide (n = AUTH_COOKIE_NAME) then Some v else jar
  | Some (DeleteCookie n) => if bool_decide (n = AUTH_COOKIE_NAME) then None else jar
  | None => jar
  end.

(** The request [c] sent with the cookie [ck]. *)
Definition with_cookie (c : Context) (ck : option string) : Context :=
  mkContext (env c) ck (req_url c) (req_origin c) (req_query c) (req_param_id c)
    (req_json c) (req_form c).

(* ====================================================================== *)
(** * src/index.ts: the earlier revisions of the search and of the delete *)
(* ====================================================================== *)

(** [SELECT DISTINCT f.* FROM files f LEFT JOIN file_tags ft ON f.id = ft.file_id
     WHERE f.filename LIKE ? OR ft.tag LIKE ?
     ORDER BY f.created_at DESC LIMIT 50] *)
Definition search_v1_sql (d : DB) (term : string) : list FileRow :=
  take 50 (remove_dups
             (fst <$> merge_sort newer_joined
                        (filter (λ r, join_where term r) (left_join d)))).

(** A whole file row as JSON. *)
Definition file_json (f : FileRow) : json :=
  JObj [("id", JStr (f_id f));
        ("filename", JStr (f_filename f));
        ("r2_key", JStr (f_r2_key f));
        ("size", JNum (pretty (f_size f)));
        ("created_at", JNum (pretty (f_created_at f)))].

(** The search of the earlier revisions: the rows as the query gives them. *)
Definition search_v1 (p : Platform) (c : Context) : M Response :=
  if below (checkAuth c) TEAM then ret unauthorized_json
  else
    let term := term_of (query_q c) in
    let! results := db_read p 0 (λ d, search_v1_sql d term) in
    ret (c_json (JArr (file_json <$> results)) 200).

(** The delete of the earlier revisions: the object, then the file row; the
    tag rows are left to the cascade of the schema. *)
Definition delete_file_v1 (p : Platform) (c : Context) : M Response :=
  if below (checkAuth c) ADMIN then ret admin_only
  else
    let id := req_param_id c in
    let! file := db_read p 0 (λ d, select_file d id) in
    do! match file with
        | Some f =>
            do! bucket_delete p 0 (f_r2_key f) in
            db_batch p 1 [DeleteFile id]
        | None => ret ()
        end in
    ret success.

(* ====================================================================== *)
(** * The page script: the tag editor *)
(* ====================================================================== *)

(** [openEditModal]: [this.editTagsInput = (file.tags || []).join(' ')] *)
Definition openEditModal (tags : list string) : string := Text.join " " tags.

(** [saveTags]: [this.editTagsInput.split(/\s+/).filter(t => t.length > 0)] *)
Definition saveTags_array (editTagsInput : string) : list string :=
  filter (λ t, Text.nonempty t) (Text.split_spaces editTagsInput).

(** [JSON.stringify({ tags: tagsArray })], as the server parses it. *)
Definition saveTags_body (editTagsInput : string) : json :=
  JObj [("tags", JArr (JStr <$> saveTags_array editTagsInput))].

(* ====================================================================== *)
(** * Notions the statements are phrased in *)
(* ====================================================================== *)



(** Some contiguous part of [s] matches the pattern [q]. *)
Definition contains_like (q s : string) : Prop :=
  ∃ pre mid post, s = pre +:+ mid +:+ post ∧ like q mid = true.


(** [q] occurs in [s] as it is written. *)
Definition contains (q s : string) : Prop :=
  ∃ pre post, s = pre +:+ q +:+ post.

(** [q] is the beginning of [s]. *)
Fixpoint prefix_of (q s : string) : bool :=
  match q with
  | EmptyString => true
  | String c q' =>
      match s with
      | EmptyString => false
      | String d s' => Ascii.eqb c d && prefix_of q' s'
      end
  end.

(** [s.includes(q)]: the executable form of [contains]. *)
Fixpoint occurs (q s : string) : bool :=
  prefix_of q s
  || match s with
     | EmptyString => false
     | String _ s' => occurs q s'
     end.

(** The matching rule as the specification words it: the file name contains
    the query, or one of the file's tags does. *)
Definition substring_match (d : DB) (q : string) (f : FileRow) : bool :=
  occurs q (f_filename f) || existsb (occurs q) (tags_of d (f_id f)).

(** Some character of the text is white space. *)
Fixpoint has_space (s : string) : bool :=
  match s with
  | EmptyString => false
  | String c s' => Text.is_space c || has_space s'
  end.

(** Every character of the text satisfies [P]. *)
Fixpoint all_chars (P : ascii → bool) (s : string) : bool :=
  match s with
  | EmptyString => true
  | String c s' => P c && all_chars P s'
  end.

(** What a percent-encoded text is made of: the unreserved characters and
    the percent sign. *)
Definition uri_safe (c : ascii) : bool := Text.uri_unreserved c || Ascii.eqb c "%".

(** A tag in normal form: not empty, nothing to trim, nothing to lowercase. *)
Definition normal_tag (t : string) : Prop :=
  Text.nonempty t = true ∧ Text.trim t = t ∧ Text.toLowerCase t = t.

(** Every stored tag is in normal form. *)
Definition tags_normal (d : DB) : Prop :=
  ∀ r, r ∈ file_tags d → normal_tag (ft_tag r).

(** The file row and the object an upload writes. *)
Definition uploaded_row (p : Platform) (file : File) : FileRow :=
  mkFile (randomUUID p) (file_name file) (randomUUID p) (file_size file) (now p).

Definition uploaded_object (p : Platform) (file : File) : R2Object :=
  mkObject (file_stream file) (Some (file_type file)) (new_etag p).

(** A tag as the two writers store it: not empty, and, for the tag list of a
    search result to be read back, without a comma. *)
Definition plain_tag (t : string) : bool :=
  Text.nonempty t && negb (Text.mem "," t).

(** The tag table after [INSERT OR IGNORE INTO file_tags VALUES (i, t)] for
    each [t] of [ts] in turn. *)
Fixpoint inserted (i : string) (ts : list string) (rows : list TagRow) : list TagRow :=
  match ts with
  | [] => rows
  | t :: ts' =>
      inserted i ts' (if bool_decide (mkTag i t ∈ rows) then rows else rows ++ [mkTag i t])
  end.

(** The database after a successful tag-replace of file [i] with [ts]. *)
Definition tags_replaced (d : DB) (i : string) (ts : list string) : DB :=
  mkDB (foreign_keys d) (files d)
    (inserted i ts (filter (λ r, ft_file_id r ≠ i) (file_tags d))).

Definition with_db (w : World) (d : DB) : World :=
  mkWorld d (bucket w) (cache w) (outbox w).

(** One state-changing request: an upload, a tag-replace or a delete, from any
    caller, with any payload, under any behaviour of the platform. *)
Inductive step : World → World → Prop :=
| step_upload p c w : step w (serve (upload p c) w).2
| step_update_tags p c w : step w (serve (update_tags p c) w).2
| step_delete_file p c w : step w (serve (delete_file p c) w).2.

(** The world before the first request: empty tables, in either foreign-key
    mode. *)
Definition initial (w : World) : Prop :=
  files (db w) = [] ∧ file_tags (db w) = [].

Definition reachable (w : World) : Prop :=
  ∃ w0, initial w0 ∧ rtc step w0 w.

(** One request to any of the six routes that touch the world, from any
    caller, with any payload, under any behaviour of the platform. *)
Inductive served : World → World → Prop :=
| served_search p c w : served w (serve (search p c) w).2
| served_get_file p c w : served w (serve (get_file p c) w).2
| served_upload p c w : served w (serve (upload p c) w).2
| served_update_tags p c w : served w (serve (update_tags p c) w).2
| served_delete_file p c w : served w (serve (delete_file p c) w).2
| served_telegram p c w : served w (serve (telegram p c) w).2.

(** The edge cache lets go of an entry: its [max-age] of 14400 seconds has
    passed, or the cache evicted it earlier. *)
Definition dropped (key : string) (w : World) : World :=
  mkWorld (db w) (bucket w) (delete key (cache w)) (outbox w).

(** What can happen while the cache holds on to the entry of [url]: requests
    to the routes, and the loss of entries of other URLs. *)
Inductive keeping (url : string) : World → World → Prop :=
| keeping_served w w' : served w w' → keeping url w w'
| keeping_dropped key w : key ≠ url → keeping url w (dropped key w).

(* ====================================================================== *)
(** * Sample data for the worked examples *)
(* ====================================================================== *)

Definition sample_env : Env := mkEnv "team-secret" "admin-secret" "bot-token".

Definition sample_db : DB :=
  mkDB true
    [mkFile "f1" "report.pdf" "f1" 2048 1000;
     mkFile "f2" "notes.txt" "f2" 512 2000]
    [mkTag "f1" "finance"; mkTag "f1" "q3"].

Definition sample_bucket : gmap string R2Object :=
  {[ "f1" := mkObject "%PDF-1.7" (Some "application/pdf") "etag-1";
     "f2" := mkObject "hello" (Some "text/plain") "etag-2" ]}.

Definition sample_world : World := mkWorld sample_db sample_bucket ∅ [].

(** The world before the first request. *)
Definition empty_world : World := mkWorld (mkDB true [] []) ∅ ∅ [].

(** A platform on which nothing rejects. *)
Definition calm : Platform :=
  mkPlatform (λ _, false) (λ _, false) (Resolves 200) true "f3" 3000 "etag-3".

(** A request for file [i] under [e], with the given cookie, query string
    parameters and JSON body. *)
Definition request (e : Env) (ck : option string) (i : string)
    (q : gmap string string) (b : outcome json) : Context :=
  mkContext e ck ("https://docs.example/api/file/" +:+ i) "https://docs.example"
    q i b ∅.

(** The same platform with the database down, and with the network down. *)
Definition database_down : Platform :=
  mkPlatform (λ _, true) (λ _, false) (Resolves 200) true "f3" 3000 "etag-3".
Definition network_down : Platform :=
  mkPlatform (λ _, false) (λ _, false) Rejects true "f3" 3000 "etag-3".

(** A Telegram update carrying the text message [report] from chat 42. *)
Definition tg_update : json :=
  JObj [("update_id", JNum "1");
        ("message", JObj [("chat", JObj [("id", JNum "42")]); ("text", JStr "report")])].

Definition tg_request : Context :=
  mkContext sample_env None "https://docs.example/api/telegram" "https://docs.example"
    ∅ "" (Return tg_update) ∅.

(** The body of the tag-replace example of the specification. *)
Definition foo_tags : list json := [JStr "  Foo"; JStr "foo"; JStr ""].
Definition foo_body : json := JObj [("tags", JArr foo_tags)].

(** A deployment whose two secrets are one and the same text. *)
Definition one_secret_env : Env := mkEnv "s3cret" "s3cret" "bot-token".



(** An upload by the admin: one file and a tag string. *)
Definition upload_request : Context :=
  mkContext sample_env (Some "admin-secret") "https://docs.example/api/upload"
    "https://docs.example" ∅ "" (Throw SyntaxError)
    {[ "file" := FFile (mkFormFile "Plan.PDF" "application/pdf" 3 "abc");
       "tags" := FText "Q4  Budget q4" ]}.

(* ====================================================================== *)
(** * Running handlers: equations of the monad *)
(* ====================================================================== *)

Lemma serve_ret (r : Response) (w : World) : serve (ret r) w = (r, w).
Proof. reflexivity. Qed.

Lemma bind_ret {A B} (a : A) (k : A → M B) (w : World) : bind (ret a) k w = k a w.
Proof. reflexivity. Qed.

Lemma bind_lift_Return {A B} (a : A) (k : A → M B) (w : World) :
  bind (lift (Return a)) k w = k a w.
Proof. reflexivity. Qed.

Lemma bind_lift_Throw {A B} (e : exn) (k : A → M B) (w : World) :
  bind (lift (Throw e)) k w = (Throw e, w).
Proof. reflexivity. Qed.

Lemma bind_db_read {A B} p n (q : DB → A) (k : A → M B) (w : World) :
  bind (db_read p n q) k w =
  if db_rejects p n then (Throw StoreError, w) else k (q (db w)) w.
Proof. unfold bind, db_read. by destruct (db_rejects p n). Qed.

(* ====================================================================== *)
(** * Worked examples *)
(* ====================================================================== *)

Example trim_example : Text.trim "  Foo " = "Foo".
Proof. reflexivity. Qed.

Example toLowerCase_example : Text.toLowerCase "Q3-Budget" = "q3-budget".
Proof. reflexivity. Qed.

Example split_spaces_example :
  Text.split_spaces " a  b c " = [""; "a"; "b"; "c"; ""].
Proof. reflexivity. Qed.

Example split_example : Text.split "," "a,,b" = ["a"; ""; "b"].
Proof. reflexivity. Qed.

Example encodeURIComponent_example :
  Text.encodeURIComponent "a b.pdf" = "a%20b.pdf".
Proof. reflexivity. Qed.

Example toString_example :
  toString (JArr [JStr "A"; JNull; JNum "2"]) = Return "A,,2".
Proof. reflexivity. Qed.

Example toString_object_example :
  toString (JObj [("name", JStr "a")]) = Return "[object Object]"
  ∧ toString (JObj [("toString", JNum "1")]) = Throw TypeError
  ∧ toString (JArr [JStr "a"; JObj [("toString", JNull)]]) = Throw TypeError.
Proof. done. Qed.

Example tag_text_example :
  tag_text (JStr "  Foo ") = Return "foo" ∧ tag_text (JNum "1e+21") = Return "1e+21".
Proof. done. Qed.

Example sanitize_example : sanitize foo_tags = Return ["foo"; "foo"].
Proof. reflexivity. Qed.

(** A tag that has no text ends the tag-replace with 500 and nothing
    written, whatever the other tags are. *)
Example update_tags_not_text_example :
  let body := JObj [("tags", JArr [JObj [("toString", JNum "1")]; JStr "foo"])] in
  let c := request sample_env (Some "admin-secret") "f1" ∅ (Return body) in
  serve (update_tags calm c) sample_world =
  (c_json (JObj [("error", JStr "Internal server error")]) 500, sample_world).
Proof. reflexivity. Qed.

Example like_example :
  like "%port%" "Report.pdf" = true
  ∧ like "%PORT%" "Report.pdf" = true
  ∧ like "%p_rt%" "Report.pdf" = true
  ∧ like "%part%" "Report.pdf" = false.
Proof. by vm_compute. Qed.

(** The empty query lists every file, the newest first. *)
Example search_example :
  s_id <$> search_sql sample_db (term_of "") = ["f2"; "f1"]
  ∧ tags_of_row <$> search_sql sample_db (term_of "q3") = [["finance"; "q3"]].
Proof. by vm_compute. Qed.

(** An upload stores the object under the fresh id and writes the file row
    with its tags, lowercased and without the duplicate. *)
Example upload_example :
  let r := serve (upload calm upload_request) sample_world in
  r.1 = success
  ∧ select_file (db r.2) "f3" = Some (mkFile "f3" "Plan.PDF" "f3" 3 3000)
  ∧ tags_of (db r.2) "f3" = ["q4"; "budget"]
  ∧ bucket r.2 !! "f3" = Some (mkObject "abc" (Some "application/pdf") "etag-3").
Proof. by vm_compute. Qed.

(** A delete removes the object, the tag rows and the file row. *)
Example delete_example :
  let c := request sample_env (Some "admin-secret") "f1" ∅ (Throw SyntaxError) in
  let r := serve (delete_file calm c) sample_world in
  r.1 = success
  ∧ files (db r.2) = [mkFile "f2" "notes.txt" "f2" 512 2000]
  ∧ file_tags (db r.2) = []
  ∧ bucket r.2 !! "f1" = None.
Proof. by vm_compute. Qed.

(* ====================================================================== *)
(** * The auth resolver and the gates *)
(* ====================================================================== *)

Section auth.
Context (c : Context).

Local Abbreviation admin := (ADMIN_PASSWORD (env c)).
Local Abbreviation team := (TEAM_PASSWORD (env c)).

Lemma checkAuth_ADMIN : checkAuth c = ADMIN ↔ cookie c = Some admin.
Proof. unfold checkAuth. repeat case_bool_decide; split; done. Qed.

Lemma checkAuth_TEAM :
  checkAuth c = TEAM ↔ cookie c = Some team ∧ team ≠ admin.
Proof.
  unfold checkAuth. repeat case_bool_decide.
  - split; [done|]. intros [Ht Hne]. congruence.
  - split; [|done]. intros _. split; [done|]. congruence.
  - split; [done|]. intros [Ht _]. done.
Qed.

Lemma checkAuth_GUEST :
  checkAuth c = GUEST ↔ cookie c ≠ Some admin ∧ cookie c ≠ Some team.
Proof.
  unfold checkAuth. repeat case_bool_decide.
  - split; [done|]. intros [Ha _]. done.
  - split; [done|]. intros [_ Ht]. done.
  - done.
Qed.

(** An absent cookie resolves to GUEST. *)
Lemma checkAuth_absent : cookie c = None → checkAuth c = GUEST.
Proof. intros H. apply checkAuth_GUEST. rewrite H. done. Qed.

(** The URL token counts only when the cookie does not. *)
Lemma isAuth_spec :
  isAuth c = true ↔
  at_least (checkAuth c) TEAM = true ∨ req_query c !! "token" = Some team.
Proof.
  unfold isAuth. destruct (at_least (checkAuth c) TEAM); [split; auto|].
  case_bool_decide; split; auto. intros [?|?]; done.
Qed.
End auth.

(** What each handler does once its gate is passed or closed. *)

Lemma search_denied p c w :
  below (checkAuth c) TEAM = true → serve (search p c) w = (unauthorized_json, w).
Proof. intros H. unfold search. by rewrite H. Qed.

Lemma search_granted p c w :
  below (checkAuth c) TEAM = false →
  db_rejects p 0 = false →
  serve (search p c) w =
  (c_json (JArr (format_row <$> search_sql (db w) (term_of (query_q c)))) 200, w).
Proof.
  intros H Hdb. unfold search, serve. rewrite H, bind_db_read, Hdb. reflexivity.
Qed.

Lemma get_file_denied p c w :
  isAuth c = false → serve (get_file p c) w = (unauthorized_text, w).
Proof. intros H. unfold get_file. by rewrite H. Qed.

(** A request that passes the gate and finds its URL in the cache gets the
    cached response; neither store is consulted. *)
Lemma get_file_cached p c w r :
  isAuth c = true →
  cache w !! req_url c = Some r →
  serve (get_file p c) w = (r, w).
Proof.
  intros H Hc. unfold get_file, serve, bind, cache_match. rewrite H; simpl.
  by rewrite Hc.
Qed.

(** A request that passes the gate and misses the cache reads both stores. *)
Lemma get_file_uncached p c w :
  isAuth c = true →
  cache w !! req_url c = None →
  db_rejects p 0 = false →
  bucket_rejects p 0 = false →
  serve (get_file p c) w =
  match select_file (db w) (req_param_id c) with
  | None => (c_notFound, w)
  | Some f =>
      match bucket w !! f_r2_key f with
      | None => (c_notFound, w)
      | Some o =>
          (file_response f o,
           if cache_keeps p
           then mkWorld (db w) (bucket w)
                  (<[req_url c := file_response f o]> (cache w)) (outbox w)
           else w)
      end
  end.
Proof.
  intros H Hc Hdb Hb. unfold get_file, serve, bind, cache_match. rewrite H; simpl.
  rewrite Hc. unfold db_read. rewrite Hdb.
  destruct (select_file _ _) as [f|]; [|done].
  unfold bucket_get. rewrite Hb. by destruct (bucket w !! f_r2_key f).
Qed.

Lemma upload_denied p c w :
  below (checkAuth c) ADMIN = true → serve (upload p c) w = (admin_only, w).
Proof. intros H. unfold upload. by rewrite H. Qed.

Lemma update_tags_denied p c w :
  below (checkAuth c) ADMIN = true → serve (update_tags p c) w = (admin_only, w).
Proof. intros H. unfold update_tags. by rewrite H. Qed.

Lemma delete_file_denied p c w :
  below (checkAuth c) ADMIN = true → serve (delete_file p c) w = (admin_only, w).
Proof. intros H. unfold delete_file. by rewrite H. Qed.

(* ====================================================================== *)
(** * The Telegram webhook *)
(* ====================================================================== *)

(** Whatever happens inside, the caller gets one of two answers. *)
Lemma telegram_two_answers p c w :
  ∃ w', serve (telegram p c) w = (ok_true, w') ∨ serve (telegram p c) w = (ok_false, w').
Proof.
  unfold serve, telegram, try_catch, bind, lift, db_read, fetch_sendMessage, ret.
  repeat (case_match; simplify_eq/=); eauto.
Qed.

(** An update without a message, or whose message has no text, is
    acknowledged before any store or network call. *)
Lemma telegram_no_text p c w u m :
  req_json c = Return u →
  prop (Some u) "message" = Return m →
  truthy m = false ∨ (∃ t, prop m "text" = Return t ∧ truthy t = false) →
  serve (telegram p c) w = (ok_true, w).
Proof.
  intros Hu Hm H.
  unfold serve, telegram, try_catch, bind, lift. rewrite Hu, Hm.
  destruct (truthy m) eqn:Ht; simpl; [|done].
  destruct H as [?|(t & Htx & Htt)]; [done|]. by rewrite Htx, Htt.
Qed.

(** An update with a text message from a chat: the answer depends on the
    search and on the send. *)
Lemma telegram_text p c w u m s ch cid :
  req_json c = Return u →
  prop (Some u) "message" = Return m →
  prop m "text" = Return (Some (JStr s)) →
  Text.nonempty s = true →
  prop m "chat" = Return ch →
  prop ch "id" = Return cid →
  serve (telegram p c) w =
  if db_rejects p 0 then (ok_false, w)
  else match fetch_outcome p with
       | Rejects => (ok_false, w)
       | Resolves _ =>
           (ok_true,
            mkWorld (db w) (bucket w) (cache w)
              (outbox w ++
               [mkTgMessage (TG_BOT_TOKEN (env c)) cid (Text.trim s)
                  ((λ file, mkTgEntry file.1.2 file.2 (downloadLink c file.1.1))
                     <$> telegram_sql (db w) (term_of (Text.trim s)))]))
       end.
Proof.
  intros Hu Hm Ht Hs Hch Hid.
  unfold serve, telegram, try_catch, bind, lift. rewrite Hu, Hm.
  assert (truthy m = true) as ->.
  { destruct m as [[]|]; simpl in *; try done. }
  simpl. rewrite Ht. simpl. rewrite Hs. simpl. rewrite Hch, Hid.
  unfold db_read. destruct (db_rejects p 0); [done|].
  unfold fetch_sendMessage. destruct (fetch_outcome p); done.
Qed.

Lemma telegram_bad_body p c w e :
  req_json c = Throw e → serve (telegram p c) w = (ok_false, w).
Proof.
  intros He. unfold serve, telegram, try_catch, bind, lift. by rewrite He.
Qed.

(* ====================================================================== *)
(** * The database under tag-replace *)
(* ====================================================================== *)

Lemma has_file_true d i : has_file d i = true ↔ i ∈ f_id <$> files d.
Proof. unfold has_file. apply bool_decide_eq_true. Qed.

Lemma select_file_Some d i f : select_file d i = Some f → f ∈ files d ∧ f_id f = i.
Proof.
  unfold select_file. intros H. apply head_Some_elem_of in H.
  by apply list_elem_of_filter in H as [? ?].
Qed.

Lemma select_file_None d i : select_file d i = None ↔ i ∉ f_id <$> files d.
Proof.
  unfold select_file. rewrite head_None. split.
  - intros H (f & -> & Hf)%list_elem_of_fmap.
    by eapply (filter_nil_not_elem_of _ _ f) in H.
  - intros H. induction (files d) as [|f l IH]; [done|].
    rewrite fmap_cons, not_elem_of_cons in H. destruct H as [Hne Hl].
    rewrite filter_cons_False by done. auto.
Qed.

Lemma select_file_has_file d i f : select_file d i = Some f → has_file d i = true.
Proof.
  intros [Hf <-]%select_file_Some. apply has_file_true.
  apply list_elem_of_fmap. eauto.
Qed.

(** A batch of tag inserts for a file that exists goes through, in either
    foreign-key mode. *)
Lemma exec_all_inserts d i ts :
  has_file d i = true →
  exec_all (InsertOrIgnoreTag i <$> ts) d =
  Return (mkDB (foreign_keys d) (files d) (inserted i ts (file_tags d))).
Proof.
  intros Hf. revert d Hf. induction ts as [|t ts IH]; intros d Hf; simpl.
  - by destruct d.
  - unfold has_tag. case_bool_decide.
    + apply IH, Hf.
    + rewrite Hf, andb_false_r. rewrite IH; [done|]. apply Hf.
Qed.

Lemma exec_all_replace d i ts :
  has_file d i = true →
  exec_all (DeleteTags i :: (InsertOrIgnoreTag i <$> ts)) d = Return (tags_replaced d i ts).
Proof. intros Hf. simpl. rewrite exec_all_inserts; done. Qed.

(** What a batch of inserts adds: the new tags in the order of their first
    occurrence. *)
Lemma inserted_spec i ts rows :
  ∃ new, inserted i ts rows = rows ++ (mkTag i <$> new)
         ∧ NoDup new
         ∧ new `sublist_of` ts
         ∧ ∀ t, t ∈ new ↔ t ∈ ts ∧ mkTag i t ∉ rows.
Proof.
  revert rows. induction ts as [|t ts IH]; intros rows; simpl.
  - exists []. rewrite app_nil_r. split_and!; [done|constructor|done|].
    intros t. rewrite !elem_of_nil. tauto.
  - case_bool_decide as Hin.
    + destruct (IH rows) as (new & -> & Hnd & Hsub & Hel).
      exists new. split_and!; [done|done|by apply sublist_cons|].
      intros t'. rewrite Hel, elem_of_cons. split; [tauto|].
      intros [[->|?] ?]; tauto.
    + destruct (IH (rows ++ [mkTag i t])) as (new & -> & Hnd & Hsub & Hel).
      exists (t :: new). split_and!.
      * by rewrite <-app_assoc.
      * constructor; [|done]. rewrite Hel. intros [_ Hn]. apply Hn.
        apply elem_of_app. right. by apply list_elem_of_singleton.
      * by apply sublist_skip.
      * intros t'. destruct (decide (t' = t)) as [->|Hne].
        -- split; [|intros; by left]. intros _. split; [by left|done].
        -- rewrite !elem_of_cons, Hel, not_elem_of_app, list_elem_of_singleton.
           split.
           ++ intros [?|[? [? ?]]]; [done|]. tauto.
           ++ intros [[?|?] ?]; [done|]. right. split_and!; [done|done|].
              intros [=]. done.
Qed.

Lemma filter_inserted_other i j ts rows :
  j ≠ i →
  filter (λ r, ft_file_id r = j) (inserted i ts rows) = filter (λ r, ft_file_id r = j) rows.
Proof.
  intros Hne. destruct (inserted_spec i ts rows) as (new & -> & _).
  rewrite filter_app. rewrite <-(app_nil_r (filter _ rows)) at 2. f_equal.
  induction new as [|t new IH]; [done|]. rewrite fmap_cons, filter_cons_False; [done|].
  simpl. congruence.
Qed.

Lemma filter_fresh_rows i (new : list string) :
  filter (λ r, ft_file_id r = i) (mkTag i <$> new) = mkTag i <$> new.
Proof.
  induction new as [|t new IH]; [done|]. rewrite fmap_cons, filter_cons_True by done.
  by rewrite IH.
Qed.

Lemma filter_out_fresh_rows i (new : list string) :
  filter (λ r, ft_file_id r ≠ i) (mkTag i <$> new) = [].
Proof.
  induction new as [|t new IH]; [done|]. rewrite fmap_cons, filter_cons_False; [done|].
  simpl. auto.
Qed.

Lemma filter_in_out i (rows : list TagRow) :
  filter (λ r, ft_file_id r = i) (filter (λ r, ft_file_id r ≠ i) rows) = [].
Proof.
  induction rows as [|r rows IH]; [done|].
  destruct (decide (ft_file_id r = i)).
  - rewrite filter_cons_False; [done|]. auto.
  - rewrite filter_cons_True by done. rewrite filter_cons_False; done.
Qed.

Lemma filter_out_out i (rows : list TagRow) :
  filter (λ r, ft_file_id r ≠ i) (filter (λ r, ft_file_id r ≠ i) rows)
  = filter (λ r, ft_file_id r ≠ i) rows.
Proof.
  induction rows as [|r rows IH]; [done|].
  destruct (decide (ft_file_id r = i)).
  - rewrite filter_cons_False; [done|]. auto.
  - rewrite !filter_cons_True by done. by rewrite IH.
Qed.

(** The tags of the file after a tag-replace. *)
Lemma tags_of_replaced d i ts :
  NoDup (tags_of (tags_replaced d i ts) i)
  ∧ tags_of (tags_replaced d i ts) i `sublist_of` ts
  ∧ ∀ t, t ∈ tags_of (tags_replaced d i ts) i ↔ t ∈ ts.
Proof.
  unfold tags_of, tags_replaced; simpl.
  destruct (inserted_spec i ts (filter (λ r, ft_file_id r ≠ i) (file_tags d)))
    as (new & -> & Hnd & Hsub & Hel).
  rewrite filter_app, filter_in_out, filter_fresh_rows. simpl.
  rewrite <-list_fmap_compose.
  assert ((ft_tag ∘ mkTag i) <$> new = new) as ->.
  { clear. induction new; [done|]. simpl. by f_equal. }
  split_and!; [done|done|]. intros t. rewrite Hel. split; [tauto|].
  intros Ht. split; [done|]. intros [Hp _]%list_elem_of_filter. by apply Hp.
Qed.

(** The tags of every other file after a tag-replace. *)
Lemma tags_of_replaced_other d i j ts :
  j ≠ i → tags_of (tags_replaced d i ts) j = tags_of d j.
Proof.
  intros Hne. unfold tags_of, tags_replaced; simpl.
  rewrite filter_inserted_other by done. f_equal.
  induction (file_tags d) as [|r rows IH]; [done|].
  destruct (decide (ft_file_id r = i)) as [Hi|Hi].
  - rewrite filter_cons_False by auto. rewrite (filter_cons_False _ r); [done|]. congruence.
  - rewrite filter_cons_True by done.
    destruct (decide (ft_file_id r = j)).
    + rewrite !filter_cons_True by done. by rewrite IH.
    + rewrite !filter_cons_False by done. done.
Qed.

(** Replacing twice with one list is replacing once. *)
Lemma tags_replaced_idem d i ts :
  tags_replaced (tags_replaced d i ts) i ts = tags_replaced d i ts.
Proof.
  unfold tags_replaced; simpl. f_equal.
  destruct (inserted_spec i ts (filter (λ r, ft_file_id r ≠ i) (file_tags d)))
    as (new & Heq & _).
  rewrite Heq at 1. rewrite filter_app, filter_out_out, filter_out_fresh_rows, app_nil_r.
  done.
Qed.

(* ====================================================================== *)
(** * PATCH /api/file/:id/tags *)
(* ====================================================================== *)

Section update_tags_facts.
Context (p : Platform) (c : Context) (w : World).
Hypothesis is_admin : below (checkAuth c) ADMIN = false.

Lemma update_tags_bad_body e :
  req_json c = Throw e →
  serve (update_tags p c) w =
  (c_json (JObj [("error", JStr "Internal server error")]) 500, w).
Proof.
  intros He. unfold serve, update_tags, try_catch, bind, lift.
  by rewrite is_admin, He.
Qed.

Lemma update_tags_not_array body v :
  req_json c = Return body →
  prop (Some body) "tags" = Return v →
  isArray v = false →
  serve (update_tags p c) w =
  (c_json (JObj [("error", JStr "Invalid tags payload")]) 400, w).
Proof.
  intros Hb Hv Ha. unfold serve, update_tags, try_catch, bind, lift.
  rewrite is_admin, Hb, Hv. by destruct v as [[]|].
Qed.

Lemma update_tags_no_file body items :
  req_json c = Return body →
  prop (Some body) "tags" = Return (Some (JArr items)) →
  db_rejects p 0 = false →
  req_param_id c ∉ f_id <$> files (db w) →
  serve (update_tags p c) w =
  (c_json (JObj [("error", JStr "File not found")]) 404, w).
Proof.
  intros Hb Hv Hdb Hf%select_file_None.
  unfold serve, update_tags, try_catch, bind, lift, db_read.
  by rewrite is_admin, Hb, Hv, Hdb, Hf.
Qed.

Lemma update_tags_ok body items ts :
  req_json c = Return body →
  prop (Some body) "tags" = Return (Some (JArr items)) →
  db_rejects p 0 = false →
  db_rejects p 1 = false →
  req_param_id c ∈ f_id <$> files (db w) →
  sanitize items = Return ts →
  serve (update_tags p c) w =
  (tags_updated ts, with_db w (tags_replaced (db w) (req_param_id c) ts)).
Proof.
  intros Hb Hv Hdb0 Hdb1 Hf Hts.
  unfold serve, update_tags, try_catch, bind, lift, db_read, db_batch.
  rewrite is_admin, Hb, Hv, Hdb0.
  destruct (select_file _ _) as [f|] eqn:Hsel.
  - rewrite Hts, Hdb1. rewrite exec_all_replace by (by apply has_file_true). done.
  - by apply select_file_None in Hsel.
Qed.

(** A tag that [String] cannot convert ends the request before the batch. *)
Lemma update_tags_not_text body items e :
  req_json c = Return body →
  prop (Some body) "tags" = Return (Some (JArr items)) →
  db_rejects p 0 = false →
  req_param_id c ∈ f_id <$> files (db w) →
  sanitize items = Throw e →
  serve (update_tags p c) w =
  (c_json (JObj [("error", JStr "Internal server error")]) 500, w).
Proof.
  intros Hb Hv Hdb0 Hf Hts.
  unfold serve, update_tags, try_catch, bind, lift, db_read, db_batch.
  rewrite is_admin, Hb, Hv, Hdb0.
  destruct (select_file _ _) as [f|] eqn:Hsel.
  - by rewrite Hts.
  - by apply select_file_None in Hsel.
Qed.
End update_tags_facts.

(** The answer 200 has one origin: an admin, a body whose [tags] is an
    array, a file row with the id, tags that all convert to text, and a
    batch that went through. *)
Lemma update_tags_200 p c w :
  status (serve (update_tags p c) w).1 = 200 →
  ∃ body items ts,
    below (checkAuth c) ADMIN = false
    ∧ req_json c = Return body
    ∧ prop (Some body) "tags" = Return (Some (JArr items))
    ∧ req_param_id c ∈ f_id <$> files (db w)
    ∧ sanitize items = Return ts
    ∧ serve (update_tags p c) w =
      (tags_updated ts, with_db w (tags_replaced (db w) (req_param_id c) ts)).
Proof.
  unfold serve, update_tags.
  destruct (below (checkAuth c) ADMIN) eqn:Ha; [done|].
  unfold try_catch, bind, lift, db_read, db_batch.
  destruct (req_json c) as [body|e] eqn:Hb; [|done].
  destruct (prop (Some body) "tags") as [[[| | | |items|]|]|e] eqn:Hp; try done.
  destruct (db_rejects p 0); [done|].
  destruct (select_file _ _) as [f|] eqn:Hsel; [|done].
  destruct (sanitize items) as [ts|e] eqn:Hts; [|done].
  destruct (db_rejects p 1); [done|].
  rewrite exec_all_replace by (by eapply select_file_has_file).
  intros _. exists body, items, ts. split_and!; try done.
  apply has_file_true. by eapply select_file_has_file.
Qed.

(* ====================================================================== *)
(** * Referential integrity under the three writers *)
(* ====================================================================== *)

Lemma ref_integrity_inserted d i ts :
  ref_integrity d →
  i ∈ f_id <$> files d →
  ref_integrity (mkDB (foreign_keys d) (files d) (inserted i ts (file_tags d))).
Proof.
  intros Hri Hi r; simpl.
  destruct (inserted_spec i ts (file_tags d)) as (new & -> & _).
  rewrite elem_of_app, list_elem_of_fmap. intros [Hr|(t & -> & _)]; [by apply Hri|done].
Qed.

Lemma ref_integrity_delete_tags d i :
  ref_integrity d →
  ref_integrity (mkDB (foreign_keys d) (files d)
                   (filter (λ r, ft_file_id r ≠ i) (file_tags d))).
Proof. intros Hri r [_ Hr]%list_elem_of_filter. by apply Hri. Qed.

Lemma ref_integrity_replaced d i ts :
  ref_integrity d → i ∈ f_id <$> files d → ref_integrity (tags_replaced d i ts).
Proof.
  intros Hri Hi.
  apply (ref_integrity_inserted
           (mkDB (foreign_keys d) (files d) (filter (λ r, ft_file_id r ≠ i) (file_tags d)))).
  - by apply ref_integrity_delete_tags.
  - done.
Qed.

Lemma ref_integrity_add_file d row :
  ref_integrity d →
  ref_integrity (mkDB (foreign_keys d) (files d ++ [row]) (file_tags d)).
Proof.
  intros Hri r Hr; simpl in *. rewrite fmap_app, elem_of_app. left. by apply Hri.
Qed.

(** Once the tag rows of a file are gone, its file row can go, with or
    without the cascade. *)
Lemma ref_integrity_delete_file d i :
  ref_integrity d →
  (∀ r, r ∈ file_tags d → ft_file_id r ≠ i) →
  ref_integrity (mkDB (foreign_keys d) (filter (λ f, f_id f ≠ i) (files d))
                   (if foreign_keys d
                    then filter (λ r, ft_file_id r ≠ i) (file_tags d)
                    else file_tags d)).
Proof.
  intros Hri Hno r Hr; simpl in *.
  assert (r ∈ file_tags d) as Hin.
  { destruct (foreign_keys d); [|done]. by apply list_elem_of_filter in Hr as [_ ?]. }
  specialize (Hri r Hin). apply list_elem_of_fmap in Hri as (f & Heq & Hf).
  apply list_elem_of_fmap. exists f. split; [done|].
  apply list_elem_of_filter. split; [|done]. rewrite <-Heq. by apply Hno.
Qed.

(** What an upload leaves in the database: nothing, or one new file row and
    its tag rows. *)
Lemma upload_db p c w :
  db (serve (upload p c) w).2 = db w
  ∨ ∃ row ts,
      db (serve (upload p c) w).2 =
      mkDB (foreign_keys (db w)) (files (db w) ++ [row])
        (inserted (f_id row) ts (file_tags (db w))).
Proof.
  unfold serve, upload.
  destruct (below (checkAuth c) ADMIN); [by left|].
  destruct (req_form c !! "file") as [[s|file]|]; [by left| |by left].
  unfold bind, bucket_put, lift, db_batch.
  destruct (bucket_rejects p 0); [by left|].
  destruct (upload_tags _) as [tags|e]; [|by left].
  simpl. destruct (db_rejects p 0); [by left|].
  destruct (has_file (db w) (randomUUID p)) eqn:Hhas; [by left|].
  rewrite (list_fmap_compose Text.toLowerCase (InsertOrIgnoreTag (randomUUID p))).
  rewrite exec_all_inserts.
  - right.
    by exists (mkFile (randomUUID p) (file_name file) (randomUUID p) (file_size file) (now p)),
      (Text.toLowerCase <$> tags).
  - apply has_file_true. simpl. rewrite fmap_app, elem_of_app. right.
    by apply list_elem_of_singleton.
Qed.

(** What a tag-replace leaves in the database. *)
Lemma update_tags_db p c w :
  db (serve (update_tags p c) w).2 = db w
  ∨ ∃ ts, req_param_id c ∈ f_id <$> files (db w)
          ∧ db (serve (update_tags p c) w).2 = tags_replaced (db w) (req_param_id c) ts.
Proof.
  unfold serve, update_tags.
  destruct (below (checkAuth c) ADMIN); [by left|].
  unfold try_catch, bind, lift, db_read, db_batch.
  destruct (req_json c) as [body|e]; [|by left].
  destruct (prop (Some body) "tags") as [[[]|]|e]; try by left.
  destruct (db_rejects p 0); [by left|].
  destruct (select_file _ _) as [f|] eqn:Hsel; [|by left].
  destruct (sanitize _) as [ts|e]; [|by left].
  destruct (db_rejects p 1); [by left|].
  rewrite exec_all_replace by (by eapply select_file_has_file).
  right. eexists. split; [|done].
  apply has_file_true. by eapply select_file_has_file.
Qed.

(** What a delete leaves in the database: nothing changed, the tag rows of
    the file gone, or those and the file row gone. *)
Lemma delete_file_db p c w :
  let i := req_param_id c in
  let d1 := mkDB (foreign_keys (db w)) (files (db w))
              (filter (λ r, ft_file_id r ≠ i) (file_tags (db w))) in
  db (serve (delete_file p c) w).2 = db w
  ∨ db (serve (delete_file p c) w).2 = d1
  ∨ db (serve (delete_file p c) w).2 =
    mkDB (foreign_keys d1) (filter (λ f, f_id f ≠ i) (files d1))
      (if foreign_keys d1
       then filter (λ r, ft_file_id r ≠ i) (file_tags d1)
       else file_tags d1).
Proof.
  intros i d1. unfold serve, delete_file.
  destruct (below (checkAuth c) ADMIN); [by left|].
  unfold bind, db_read, bucket_delete, db_batch.
  destruct (db_rejects p 0); [by left|].
  destruct (select_file _ _) as [f|]; [|by left].
  destruct (bucket_rejects p 0); [by left|].
  destruct (db_rejects p 1); [by left|]. simpl.
  destruct (db_rejects p 2); [by right; left|]. by right; right.
Qed.

Lemma upload_ref_integrity p c w :
  ref_integrity (db w) → ref_integrity (db (serve (upload p c) w).2).
Proof.
  intros Hri. destruct (upload_db p c w) as [->|(row & ts & ->)]; [done|].
  apply (ref_integrity_inserted
           (mkDB (foreign_keys (db w)) (files (db w) ++ [row]) (file_tags (db w)))).
  - by apply ref_integrity_add_file.
  - simpl. rewrite fmap_app, elem_of_app. right. by apply list_elem_of_singleton.
Qed.

Lemma update_tags_ref_integrity p c w :
  ref_integrity (db w) → ref_integrity (db (serve (update_tags p c) w).2).
Proof.
  intros Hri. destruct (update_tags_db p c w) as [->|(ts & Hf & ->)]; [done|].
  by apply ref_integrity_replaced.
Qed.

Lemma delete_file_ref_integrity p c w :
  ref_integrity (db w) → ref_integrity (db (serve (delete_file p c) w).2).
Proof.
  intros Hri. destruct (delete_file_db p c w) as [->|[->| ->]]; [done| |].
  - by apply ref_integrity_delete_tags.
  - apply ref_integrity_delete_file.
    + by apply ref_integrity_delete_tags.
    + simpl. by intros r [? _]%list_elem_of_filter.
Qed.

Lemma step_ref_integrity w w' :
  step w w' → ref_integrity (db w) → ref_integrity (db w').
Proof.
  destruct 1; eauto using upload_ref_integrity, update_tags_ref_integrity,
    delete_file_ref_integrity.
Qed.

Lemma steps_ref_integrity w w' :
  rtc step w w' → ref_integrity (db w) → ref_integrity (db w').
Proof. induction 1; eauto using step_ref_integrity. Qed.

Lemma initial_ref_integrity w : initial w → ref_integrity (db w).
Proof. intros [_ Ht] r. rewrite Ht. by intros ?%elem_of_nil. Qed.

Lemma reachable_ref_integrity w : reachable w → ref_integrity (db w).
Proof.
  intros (w0 & Hinit & Hsteps).
  eauto using steps_ref_integrity, initial_ref_integrity.
Qed.

(* ====================================================================== *)
(** * Text and LIKE *)
(* ====================================================================== *)

Section text_facts.
Implicit Types (s t u p q : string) (c : ascii).

Lemma append_nil_l s : "" +:+ s = s.
Proof. reflexivity. Qed.

Lemma append_cons c s t : String c s +:+ t = String c (s +:+ t).
Proof. reflexivity. Qed.

Lemma append_nil_r s : s +:+ "" = s.
Proof. induction s as [|c s IH]; [done|]. by rewrite append_cons, IH. Qed.

Lemma append_assoc s t u : (s +:+ t) +:+ u = s +:+ t +:+ u.
Proof. induction s as [|c s IH]; [done|]. by rewrite !append_cons, IH. Qed.

Lemma append_eq_nil s t : s +:+ t = "" → s = "" ∧ t = "".
Proof. destruct s; [done|]. rewrite append_cons. done. Qed.
End text_facts.

Section like_facts.
Implicit Types (s t p q pre mid post : string) (c : ascii).


Lemma like_percent p s :
  like (String "%" p) s
  = like p s || match s with
                | EmptyString => false
                | String _ s' => like (String "%" p) s'
                end.
Proof. by destruct s. Qed.

Lemma like_char c p s :
  c ≠ "%"%char →
  like (String c p) s
  = match s with
    | EmptyString => false
    | String d s' => (if Ascii.eqb c "_" then true else char_like c d) && like p s'
    end.
Proof. intros Hc%Ascii.eqb_neq. simpl. by rewrite Hc. Qed.

(** A leading [%] lets the rest of the pattern start anywhere. *)
Lemma like_percent_spec p s :
  like (String "%" p) s = true ↔ ∃ pre rest, s = pre +:+ rest ∧ like p rest = true.
Proof.
  induction s as [|d s IH]; rewrite like_percent.
  - rewrite orb_false_r. split.
    + intros H. by exists "", "".
    + intros (pre & rest & [-> ->]%eq_sym%append_eq_nil & H). done.
  - rewrite orb_true_iff, IH. split.
    + intros [H|(pre & rest & -> & H)].
      * by exists "", (String d s).
      * by exists (String d pre), rest.
    + intros ([|d' pre] & rest & Heq & H).
      * left. by rewrite Heq.
      * right. rewrite append_cons in Heq. injection Heq as -> ->. eauto.
Qed.

Lemma like_percent_only s : like "%" s = true.
Proof. apply like_percent_spec. exists s, "". by rewrite append_nil_r. Qed.

(** A trailing [%] lets the text go on after the match. *)
Lemma like_trailing_percent q s :
  like (q +:+ "%") s = true ↔ ∃ mid post, s = mid +:+ post ∧ like q mid = true.
Proof.
  revert s. induction q as [|c q IH]; intros s.
  - rewrite append_nil_l. split.
    + intros _. by exists "", s.
    + intros _. apply like_percent_only.
  - rewrite append_cons. destruct (decide (c = "%"%char)) as [->|Hc].
    + rewrite like_percent_spec. split.
      * intros (pre & rest & -> & (mid & post & -> & H)%IH).
        exists (pre +:+ mid), post. rewrite append_assoc. split; [done|].
        apply like_percent_spec. eauto.
      * intros (mid' & post & -> & (pre & mid & -> & H)%like_percent_spec).
        exists pre, (mid +:+ post). rewrite append_assoc. split; [done|].
        apply IH. eauto.
    + rewrite like_char by done. split.
      * destruct s as [|d s]; [done|].
        intros [Hd (mid & post & -> & H)%IH]%andb_true_iff.
        exists (String d mid), post. split; [done|].
        rewrite like_char by done. by rewrite Hd, H.
      * intros (mid & post & -> & H). rewrite like_char in H by done.
        destruct mid as [|d mid]; [done|]. apply andb_true_iff in H as [Hd H].
        rewrite append_cons, Hd. simpl. apply IH. eauto.
Qed.

(** The search term [%q%] matches the texts with a part that matches [q]. *)
Lemma like_term q s : like (term_of q) s = true ↔ contains_like q s.
Proof.
  unfold term_of, contains_like. rewrite append_cons, append_nil_l, like_percent_spec.
  split.
  - intros (pre & rest & -> & (mid & post & -> & H)%like_trailing_percent). eauto.
  - intros (pre & mid & post & -> & H). exists pre, (mid +:+ post). split; [done|].
    apply like_trailing_percent. eauto.
Qed.

(** Every text matches itself, wildcards included. *)
Lemma like_refl q : like q q = true.
Proof.
  induction q as [|c q IH]; [done|].
  destruct (decide (c = "%"%char)) as [->|Hc].
  - apply like_percent_spec. exists "%", q. split; [done|]. done.
  - rewrite like_char by done. rewrite IH, andb_true_r.
    destruct (Ascii.eqb c "_"); [done|]. apply Ascii.eqb_refl.
Qed.

Lemma contains_contains_like q s : contains q s → contains_like q s.
Proof. intros (pre & post & ->). exists pre, q, post. split; [done|]. apply like_refl. Qed.



End like_facts.

Section occurs_facts.
Implicit Types (s q pre post : string).

Lemma prefix_of_spec q s : prefix_of q s = true ↔ ∃ post, s = q +:+ post.
Proof.
  revert s. induction q as [|c q IH]; intros s; simpl.
  - split; [|done]. intros _. by exists s.
  - destruct s as [|d s].
    + split; [done|]. by intros (post & ?).
    + rewrite andb_true_iff, Ascii.eqb_eq, IH. split.
      * intros [-> (post & ->)]. by exists post.
      * intros (post & Heq). rewrite append_cons in Heq.
        injection Heq as -> ->. eauto.
Qed.

(** [occurs] decides [contains]. *)
Lemma occurs_spec q s : occurs q s = true ↔ contains q s.
Proof.
  unfold contains. induction s as [|d s IH]; simpl.
  - rewrite orb_false_r, prefix_of_spec. split.
    + intros (post & ->). by exists "", post.
    + intros (pre & post & [-> H]%eq_sym%append_eq_nil). eauto.
  - rewrite orb_true_iff, IH, prefix_of_spec. split.
    + intros [(post & ->)|(pre & post & ->)].
      * by exists "", post.
      * by exists (String d pre), post.
    + intros ([|d' pre] & post & Heq).
      * left. by exists post.
      * right. rewrite append_cons in Heq. injection Heq as -> ->. eauto.
Qed.

Lemma substring_match_spec d q f :
  substring_match d q f = true ↔
  contains q (f_filename f) ∨ ∃ t, t ∈ tags_of d (f_id f) ∧ contains q t.
Proof.
  unfold substring_match. rewrite orb_true_iff, occurs_spec.
  apply or_iff_compat_l. rewrite existsb_exists.
  split; intros (t & Ht & H); exists t.
  - by rewrite <-occurs_spec, list_elem_of_In.
  - by rewrite occurs_spec, <-list_elem_of_In.
Qed.
End occurs_facts.

(* ====================================================================== *)
(** * The search query *)
(* ====================================================================== *)

Global Instance newer_trans : Transitive newer.
Proof. unfold newer. intros a b c ? ?. lia. Qed.
Global Instance newer_total : Total newer.
Proof. unfold newer. intros a b. lia. Qed.

Section search_facts.
Context (d : DB) (term : string).

Local Abbreviation hits := (filter (λ f, search_where d term f) (files d)).
Local Abbreviation sorted := (merge_sort newer (search_select d <$> hits)).

Lemma search_sql_length : (length (search_sql d term) ≤ 50)%nat.
Proof. unfold search_sql. rewrite length_take. lia. Qed.

Lemma search_sql_sorted : StronglySorted newer (search_sql d term).
Proof.
  unfold search_sql.
  assert (StronglySorted newer sorted) as Hs by (apply StronglySorted_merge_sort; apply _).
  rewrite <-(take_drop 50 sorted) in Hs.
  by apply StronglySorted_app_1_l in Hs.
Qed.

Lemma sorted_elem r :
  r ∈ sorted ↔ ∃ f, f ∈ files d ∧ search_where d term f = true ∧ r = search_select d f.
Proof.
  rewrite merge_sort_Permutation, list_elem_of_fmap. split.
  - intros (f & -> & [Hw Hf]%list_elem_of_filter). exists f.
    split_and!; [done| |done]. by apply Is_true_true.
  - intros (f & Hf & Hw & ->). exists f. split; [done|].
    apply list_elem_of_filter. split; [|done]. by apply Is_true_true.
Qed.

(** Every row of the result is the row of a file that satisfies the WHERE
    clause. *)
Lemma search_sql_elem r :
  r ∈ search_sql d term →
  ∃ f, f ∈ files d ∧ search_where d term f = true ∧ r = search_select d f.
Proof.
  unfold search_sql. intros Hr. apply sorted_elem.
  eapply elem_of_sublist; [done|]. apply sublist_take.
Qed.

(** A file that satisfies the WHERE clause is in the result, unless the
    result is full with rows that are at least as recent. *)
Lemma search_sql_complete f :
  f ∈ files d →
  search_where d term f = true →
  search_select d f ∈ search_sql d term
  ∨ (length (search_sql d term) = 50%nat
     ∧ ∀ r, r ∈ search_sql d term → f_created_at f ≤ s_created_at r).
Proof.
  intros Hf Hw.
  assert (search_select d f ∈ sorted) as Hin by (apply sorted_elem; eauto).
  assert (StronglySorted newer sorted) as Hs by (apply StronglySorted_merge_sort; apply _).
  unfold search_sql. rewrite <-(take_drop 50 sorted) in Hin, Hs.
  apply elem_of_app in Hin as [Hin|Hin]; [by left|right].
  split.
  - apply length_take_le. destruct (decide (50 ≤ length sorted)%nat); [done|].
    rewrite drop_ge in Hin by lia. by apply elem_of_nil in Hin.
  - intros r Hr.
    apply (StronglySorted_app_1_elem_of _ _ _ r (search_select d f)) in Hs; done.
Qed.

(** When at most 50 files satisfy the WHERE clause, all of them are there. *)
Lemma search_sql_all f :
  (length hits ≤ 50)%nat →
  f ∈ files d →
  search_where d term f = true →
  search_select d f ∈ search_sql d term.
Proof.
  intros Hlen Hf Hw. unfold search_sql. rewrite take_ge.
  - apply sorted_elem; eauto.
  - by rewrite merge_sort_Permutation, length_fmap.
Qed.

(** A file occurs at most once, whatever the number of its tags that match. *)
Lemma search_sql_NoDup : NoDup (f_id <$> files d) → NoDup (s_id <$> search_sql d term).
Proof.
  intros Hnd. unfold search_sql.
  apply (sublist_NoDup _ (s_id <$> sorted)); [|apply (fmap_sublist s_id), sublist_take].
  rewrite merge_sort_Permutation, <-list_fmap_compose.
  apply (sublist_NoDup _ (f_id <$> files d)); [exact Hnd|].
  apply (fmap_sublist f_id), sublist_filter.
Qed.
End search_facts.

(** The WHERE clause of the search, read off the tables. *)
Lemma search_where_spec d q f :
  search_where d (term_of q) f = true ↔
  contains_like q (f_filename f)
  ∨ ∃ t, t ∈ tags_of d (f_id f) ∧ contains_like q t.
Proof.
  unfold search_where. rewrite orb_true_iff, like_term.
  apply or_iff_compat_l. unfold tags_of.
  induction (file_tags d) as [|r rows IH]; cbn [existsb].
  - split; [done|]. by intros (t & ?%elem_of_nil & _).
  - rewrite orb_true_iff, IH, andb_true_iff, bool_decide_eq_true, like_term.
    destruct (decide (ft_file_id r = f_id f)) as [Hr|Hr].
    + rewrite filter_cons_True by done. split.
      * intros [[_ H]|(t & Ht & H)].
        -- exists (ft_tag r). split; [by left|done].
        -- exists t. split; [by right|done].
      * intros (t & [->|Ht]%elem_of_cons & H); [by left|]. right. eauto.
    + rewrite filter_cons_False by done. split; [|by right].
      intros [[? _]|H]; done.
Qed.

Section split_join.
Implicit Types (t s : string) (ts : list string).

Lemma split_plain t : Text.mem "," t = false → Text.split "," t = [t].
Proof.
  induction t as [|c t IH]; [done|]. simpl.
  intros [Hc Ht]%orb_false_iff. rewrite Hc, IH by done. done.
Qed.

Lemma split_append t s :
  Text.mem "," t = false →
  Text.split "," (t +:+ "," +:+ s) = t :: Text.split "," s.
Proof.
  induction t as [|c t IH]; [done|]. 
  intros [Hc Ht]%orb_false_iff. rewrite append_cons. simpl. rewrite Hc, IH by done. done.
Qed.

(** Splitting at the commas undoes the join when no part has a comma. *)
Lemma split_join ts :
  ts ≠ [] →
  Forall (λ t, Text.mem "," t = false) ts →
  Text.split "," (Text.join "," ts) = ts.
Proof.
  intros Hne Hall. induction Hall as [|t ts Ht Hall IH]; [done|].
  destruct ts as [|t' ts]; simpl.
  - by apply split_plain.
  - rewrite split_append by done. f_equal. by apply IH.
Qed.

Lemma join_nonempty ts :
  ts ≠ [] →
  Forall (λ t, Text.nonempty t = true) ts →
  Text.nonempty (Text.join "," ts) = true.
Proof.
  intros Hne Hall. destruct Hall as [|t ts Ht Hall]; [done|].
  destruct ts; simpl; [done|]. by destruct t.
Qed.
End split_join.

(** The tag list of a result row is the tag list of the file, provided the
    tags are not empty and have no comma. *)
Lemma tags_of_row_select d f :
  Forall (λ t, plain_tag t = true) (tags_of d (f_id f)) →
  tags_of_row (search_select d f) = tags_of d (f_id f).
Proof.
  intros Hall. unfold tags_of_row, search_select; simpl.
  destruct (tags_of d (f_id f)) as [|t ts] eqn:Hts; [done|].
  unfold group_concat. rewrite join_nonempty, split_join; [done|done| |done|].
  - eapply Forall_impl; [exact Hall|]. unfold plain_tag. intros x Hx; simpl in Hx.
    apply andb_true_iff in Hx as [_ Hx]. by apply negb_true_iff in Hx.
  - eapply Forall_impl; [exact Hall|]. unfold plain_tag. intros x Hx; simpl in Hx.
    by apply andb_true_iff in Hx as [Hx _].
Qed.

(* ====================================================================== *)
(** * The primary keys under the three writers *)
(* ====================================================================== *)

Lemma has_tag_true d i t : has_tag d i t = true ↔ mkTag i t ∈ file_tags d.
Proof. unfold has_tag. apply bool_decide_eq_true. Qed.

(** Each statement that succeeds keeps the two primary keys. *)
Lemma exec_db_keys s d d' : exec s d = Return d' → db_keys d → db_keys d'.
Proof.
  intros Hex [Hf Ht]. destruct s as [row|i t|i|i]; simpl in Hex.
  - destruct (has_file d (f_id row)) eqn:Hhas; [done|]. injection Hex as <-.
    split; simpl; [|done]. rewrite fmap_app. apply NoDup_app. split_and!; [done| |].
    + intros x Hx [->|[]%elem_of_nil]%elem_of_cons.
      apply has_file_true in Hx. congruence.
    + apply NoDup_singleton.
  - destruct (has_tag d i t) eqn:Hhas; [by injection Hex as <-|].
    destruct (foreign_keys d && negb (has_file d i)); [done|]. injection Hex as <-.
    split; simpl; [done|]. apply NoDup_app. split_and!; [done| |apply NoDup_singleton].
    intros x Hx [->|[]%elem_of_nil]%elem_of_cons.
    apply has_tag_true in Hx. congruence.
  - injection Hex as <-. split; simpl; [done|]. by apply NoDup_filter.
  - injection Hex as <-. split; simpl.
    + apply (sublist_NoDup _ (f_id <$> files d)); [done|].
      apply (fmap_sublist f_id), sublist_filter.
    + destruct (foreign_keys d); [by apply NoDup_filter|done].
Qed.

Lemma exec_all_db_keys ss d d' : exec_all ss d = Return d' → db_keys d → db_keys d'.
Proof.
  revert d. induction ss as [|s ss IH]; intros d; simpl.
  - by intros [= <-].
  - destruct (exec s d) as [d1|e] eqn:Hex; [|done].
    intros Hall Hk. apply (IH d1 Hall). by eapply exec_db_keys.
Qed.

(** A batch changes the database only by running its statements. *)
Lemma db_batch_db_keys p k ss w :
  db_keys (db w) → db_keys (db (db_batch p k ss w).2).
Proof.
  intros Hk. unfold db_batch. destruct (db_rejects p k); [done|].
  destruct (exec_all ss (db w)) as [d'|e] eqn:Hex; [|done].
  simpl. by eapply exec_all_db_keys.
Qed.

Lemma upload_db_keys p c w : db_keys (db w) → db_keys (db (serve (upload p c) w).2).
Proof.
  intros Hk. unfold serve, upload.
  destruct (below (checkAuth c) ADMIN); [done|].
  destruct (req_form c !! "file") as [[s|file]|]; [done| |done].
  unfold bind, bucket_put, lift.
  destruct (bucket_rejects p 0); [done|].
  destruct (upload_tags _) as [tags|e]; [|done].
  match goal with |- context [db_batch p 0 ?ss ?w1] =>
    pose proof (db_batch_db_keys p 0 ss w1 Hk) as Hb;
    destruct (db_batch p 0 ss w1) as [[[]|e] w2]; done
  end.
Qed.

Lemma update_tags_db_keys p c w :
  db_keys (db w) → db_keys (db (serve (update_tags p c) w).2).
Proof.
  intros Hk. unfold serve, update_tags.
  destruct (below (checkAuth c) ADMIN); [done|].
  unfold try_catch, bind, lift, db_read.
  destruct (req_json c) as [body|e]; [|done].
  destruct (prop (Some body) "tags") as [[[]|]|e]; try done.
  destruct (db_rejects p 0); [done|].
  destruct (select_file _ _) as [f|]; [|done].
  destruct (sanitize _) as [ts|e]; [|done].
  match goal with |- context [db_batch p 1 ?ss ?w1] =>
    pose proof (db_batch_db_keys p 1 ss w1 Hk) as Hb;
    destruct (db_batch p 1 ss w1) as [[[]|e] w2]; done
  end.
Qed.

Lemma delete_file_db_keys p c w :
  db_keys (db w) → db_keys (db (serve (delete_file p c) w).2).
Proof.
  intros Hk. unfold serve, delete_file.
  destruct (below (checkAuth c) ADMIN); [done|].
  unfold bind, db_read, bucket_delete.
  destruct (db_rejects p 0); [done|].
  destruct (select_file _ _) as [f|]; [|done].
  destruct (bucket_rejects p 0); [done|].
  match goal with |- context [db_batch p 1 ?ss ?w1] =>
    pose proof (db_batch_db_keys p 1 ss w1 Hk) as Hb1;
    destruct (db_batch p 1 ss w1) as [[[]|e] w2]; [|done]
  end.
  match goal with |- context [db_batch p 2 ?ss ?w1] =>
    pose proof (db_batch_db_keys p 2 ss w1 Hb1) as Hb2;
    destruct (db_batch p 2 ss w1) as [[[]|e] w3]; done
  end.
Qed.

Lemma step_db_keys w w' : step w w' → db_keys (db w) → db_keys (db w').
Proof.
  destruct 1; eauto using upload_db_keys, update_tags_db_keys, delete_file_db_keys.
Qed.

(** The primary keys hold in every reachable world. *)
Lemma reachable_db_keys w : reachable w → db_keys (db w).
Proof.
  intros (w0 & [Hf Ht] & Hsteps).
  assert (db_keys (db w0)) as Hk0.
  { split; [rewrite Hf|rewrite Ht]; constructor. }
  clear Hf Ht. induction Hsteps; eauto using step_db_keys.
Qed.

(* ====================================================================== *)
(** * Further facts used by the statements *)
(* ====================================================================== *)

Lemma map_throwing_Return {A B} (f : A → outcome B) l ys :
  map_throwing f l = Return ys ↔ Forall2 (λ x y, f x = Return y) l ys.
Proof.
  revert ys. induction l as [|x l IH]; intros ys; simpl.
  - split; [intros [= <-]; constructor|by intros ->%Forall2_nil_inv_l].
  - split.
    + destruct (f x) as [y|e] eqn:Hx; [|done].
      destruct (map_throwing f l) as [ys'|e]; [|done].
      intros [= <-]. constructor; [done|]. by apply IH.
    + intros (y & ys' & Hx & Hl & ->)%Forall2_cons_inv_l.
      rewrite Hx. apply IH in Hl. by rewrite Hl.
Qed.

Lemma map_throwing_elem {A B} (f : A → outcome B) l ys y :
  map_throwing f l = Return ys → (y ∈ ys ↔ ∃ x, x ∈ l ∧ f x = Return y).
Proof.
  intros Hall%map_throwing_Return.
  induction Hall as [|x y' l ys Hx Hall IH].
  - split; [by intros ?%elem_of_nil|by intros (x & ?%elem_of_nil & _)].
  - rewrite elem_of_cons, IH. split.
    + intros [->|(x' & Hin & Hx')]; [exists x; split; [by left|done]|].
      exists x'. split; [by right|done].
    + intros (x' & [->|Hin]%elem_of_cons & Hx'); [left; congruence|].
      right. by exists x'.
Qed.

(** The members of the normalized list: the texts of the input tags that are
    not empty. *)
Lemma elem_of_sanitize t items ts :
  sanitize items = Return ts →
  t ∈ ts ↔ t ≠ "" ∧ ∃ v, v ∈ items ∧ tag_text v = Return t.
Proof.
  unfold sanitize. destruct (map_throwing tag_text items) as [l|e] eqn:Hl; [|done].
  intros [= <-]. rewrite list_elem_of_filter, (map_throwing_elem _ _ _ _ Hl). split.
  - intros [Hne Hv]. split; [|done]. intros Heq. by rewrite Heq in Hne.
  - intros [Hne Hv]. split; [|done]. by destruct t.
Qed.


Lemma contains_like_empty s : contains_like "" s.
Proof. by exists "", "", s. Qed.

(** The empty query keeps every file. *)
Lemma search_where_empty d f : search_where d (term_of "") f = true.
Proof. apply search_where_spec. left. apply contains_like_empty. Qed.

Lemma filter_all {A} (P : A → Prop) `{!∀ x, Decision (P x)} (l : list A) :
  (∀ x, x ∈ l → P x) → filter P l = l.
Proof.
  induction l as [|x l IH]; intros Hall; [done|].
  rewrite filter_cons_True by (apply Hall; by left).
  rewrite IH; [done|]. intros y Hy. apply Hall. by right.
Qed.

Lemma search_sql_empty_length d :
  length (search_sql d (term_of "")) = (50 `min` length (files d))%nat.
Proof.
  unfold search_sql. rewrite length_take, merge_sort_Permutation, length_fmap.
  rewrite filter_all; [done|]. intros f _. apply Is_true_true, search_where_empty.
Qed.


(* ====================================================================== *)
(** * The statements of the specification *)
(* ====================================================================== *)

(** ** C1: the acknowledgement of the Telegram webhook *)

(** C1, as stated, fails: with a text message in the update, the handler
    answers [{ok: false}] with status 500 when the outbound send rejects, and
    likewise when the search rejects. *)
Lemma telegram_failure_reported :
  serve (telegram network_down tg_request) sample_world = (ok_false, sample_world)
  ∧ serve (telegram database_down tg_request) sample_world = (ok_false, sample_world)
  ∧ status ok_false = 500
  ∧ body ok_false = BJson (JObj [("ok", JBool false)]).
Proof. by vm_compute. Qed.

(** C1 (amended): for every incoming payload the webhook handler lets no
    exception escape and answers either [{ok: true}] (200) or [{ok: false}]
    (500).  It acknowledges success when the update has no message or the
    message has no text, before any store or network call, and, for a text
    message from a chat, when the search returns and the outbound send gets an
    answer, whatever the HTTP status of that answer.  It answers
    [{ok: false}] with status 500 when the body is not JSON, when the search
    rejects, and when the outbound send rejects. *)
Theorem telegram_acknowledgement (p : Platform) (c : Context) (w : World) :
  (∃ w', serve (telegram p c) w = (ok_true, w') ∨ serve (telegram p c) w = (ok_false, w'))
  ∧ (∀ e, req_json c = Throw e → serve (telegram p c) w = (ok_false, w))
  ∧ (∀ u m,
       req_json c = Return u →
       prop (Some u) "message" = Return m →
       truthy m = false ∨ (∃ t, prop m "text" = Return t ∧ truthy t = false) →
       serve (telegram p c) w = (ok_true, w))
  ∧ (∀ u m s ch cid,
       req_json c = Return u →
       prop (Some u) "message" = Return m →
       prop m "text" = Return (Some (JStr s)) →
       Text.nonempty s = true →
       prop m "chat" = Return ch →
       prop ch "id" = Return cid →
       (db_rejects p 0 = true → serve (telegram p c) w = (ok_false, w))
       ∧ (db_rejects p 0 = false → fetch_outcome p = Rejects →
          serve (telegram p c) w = (ok_false, w))
       ∧ (db_rejects p 0 = false → ∀ st, fetch_outcome p = Resolves st →
          (serve (telegram p c) w).1 = ok_true)).
Proof.
  split_and!.
  - apply telegram_two_answers.
  - intros e. apply telegram_bad_body.
  - intros u m. apply telegram_no_text.
  - intros u m s ch cid Hu Hm Ht Hs Hch Hid.
    rewrite (telegram_text p c w u m s ch cid) by done.
    split_and!.
    + by intros ->.
    + by intros -> ->.
    + by intros -> st ->.
Qed.

Lemma telegram_acknowledgement_witness :
  serve (telegram network_down tg_request) sample_world = (ok_false, sample_world)
  ∧ (serve (telegram calm tg_request) sample_world).1 = ok_true.
Proof.
  destruct (telegram_acknowledgement network_down tg_request sample_world)
    as (_ & _ & _ & Hdown).
  destruct (telegram_acknowledgement calm tg_request sample_world)
    as (_ & _ & _ & Hcalm).
  split.
  - refine (proj1 (proj2 (Hdown tg_update _ "report" _ _ _ _ _ _ _ _)) _ _);
      reflexivity.
  - refine (proj2 (proj2 (Hcalm tg_update _ "report" _ _ _ _ _ _ _ _)) _ 200 _);
      reflexivity.
Defined.

(** ** C2: what tag-replace returns and what it stores *)

(** C2: on the statement's own example the returned list is not the stored
    set.  An admin replaces the tags of an existing file by
    ["  Foo", "foo", ""]: the response carries the list [foo, foo], with the
    duplicate, while the tags stored for the file are the single [foo]. *)
Lemma update_tags_returns_duplicates :
  let c := request sample_env (Some "admin-secret") "f1" ∅ (Return foo_body) in
  let r := serve (update_tags calm c) sample_world in
  r.1 = tags_updated ["foo"; "foo"]
  ∧ tags_of (db r.2) "f1" = ["foo"]
  ∧ r.1 ≠ tags_updated (tags_of (db r.2) "f1").
Proof. by vm_compute. Qed.

(** ** C7: the failures of tag-replace *)

(** C7: tag-replace fails with Forbidden (403) when the caller is below
    ADMIN; for an admin, with BadRequest (400) when the [tags] field of the
    body is not an array; and for an admin with an array of tags, with
    NotFound (404) when no file row has the id.  In each case the world,
    and with it the tag rows of every file, is as it was. *)
Theorem update_tags_failures (p : Platform) (c : Context) (w : World) :
  (below (checkAuth c) ADMIN = true →
     status (serve (update_tags p c) w).1 = 403
     ∧ (serve (update_tags p c) w).2 = w)
  ∧ (below (checkAuth c) ADMIN = false →
     ∀ body v,
       req_json c = Return body →
       prop (Some body) "tags" = Return v →
       isArray v = false →
       status (serve (update_tags p c) w).1 = 400
       ∧ (serve (update_tags p c) w).2 = w)
  ∧ (below (checkAuth c) ADMIN = false →
     ∀ body items,
       req_json c = Return body →
       prop (Some body) "tags" = Return (Some (JArr items)) →
       db_rejects p 0 = false →
       req_param_id c ∉ f_id <$> files (db w) →
       status (serve (update_tags p c) w).1 = 404
       ∧ (serve (update_tags p c) w).2 = w).
Proof.
  split_and!.
  - intros Ha. by rewrite update_tags_denied.
  - intros Ha body v Hb Hv Harr. by rewrite (update_tags_not_array p c w Ha body v).
  - intros Ha body items Hb Hv Hdb Hf.
    by rewrite (update_tags_no_file p c w Ha body items).
Qed.

Lemma update_tags_failures_witness :
  let guest := request sample_env None "f1" ∅ (Return foo_body) in
  let no_list :=
    request sample_env (Some "admin-secret") "f1" ∅ (Return (JObj [("tags", JStr "foo")])) in
  let no_file := request sample_env (Some "admin-secret") "f9" ∅ (Return foo_body) in
  (status (serve (update_tags calm guest) sample_world).1 = 403
   ∧ (serve (update_tags calm guest) sample_world).2 = sample_world)
  ∧ (status (serve (update_tags calm no_list) sample_world).1 = 400
     ∧ (serve (update_tags calm no_list) sample_world).2 = sample_world)
  ∧ (status (serve (update_tags calm no_file) sample_world).1 = 404
     ∧ (serve (update_tags calm no_file) sample_world).2 = sample_world).
Proof.
  intros guest no_list no_file. split_and!.
  - apply (proj1 (update_tags_failures calm guest sample_world)). reflexivity.
  - apply (proj1 (update_tags_failures calm guest sample_world)). reflexivity.
  - refine (proj1 (proj1 (proj2 (update_tags_failures calm no_list sample_world))
                     _ _ (Some (JStr "foo")) _ _ _)); reflexivity.
  - refine (proj2 (proj1 (proj2 (update_tags_failures calm no_list sample_world))
                     _ _ (Some (JStr "foo")) _ _ _)); reflexivity.
  - refine (proj1 (proj2 (proj2 (update_tags_failures calm no_file sample_world))
                     _ foo_body foo_tags _ _ _ _));
      try reflexivity; apply select_file_None; reflexivity.
  - refine (proj2 (proj2 (proj2 (update_tags_failures calm no_file sample_world))
                     _ foo_body foo_tags _ _ _ _));
      try reflexivity; apply select_file_None; reflexivity.
Defined.

(** ** C4: the shape of the search result *)

(** C4: for every query and every database that respects the primary keys
    of the schema, the search answers with a list of at most 50
    rows, each at least as recent as all the rows after it, in which no file
    id occurs twice; for the empty query these are rows of files of the
    database, 50 of them or all if there are fewer, and every file left out
    is no more recent than any row listed. *)
Theorem search_result_list (p : Platform) (c : Context) (w : World) :
  below (checkAuth c) TEAM = false →
  db_rejects p 0 = false →
  db_keys (db w) →
  ∃ rows,
    serve (search p c) w = (c_json (JArr (format_row <$> rows)) 200, w)
    ∧ (length rows ≤ 50)%nat
    ∧ StronglySorted newer rows
    ∧ NoDup (s_id <$> rows)
    ∧ (query_q c = "" →
       (∀ r, r ∈ rows → ∃ f, f ∈ files (db w) ∧ r = search_select (db w) f)
       ∧ length rows = (50 `min` length (files (db w)))%nat
       ∧ ∀ f, f ∈ files (db w) →
              search_select (db w) f ∈ rows
              ∨ ∀ r, r ∈ rows → f_created_at f ≤ s_created_at r).
Proof.
  intros Hgate Hdb [Hpk _]. exists (search_sql (db w) (term_of (query_q c))).
  split_and!.
  - by apply search_granted.
  - apply search_sql_length.
  - apply search_sql_sorted.
  - by apply search_sql_NoDup.
  - intros ->. split_and!.
    + intros r (f & Hf & _ & ->)%search_sql_elem. eauto.
    + apply search_sql_empty_length.
    + intros f Hf.
      destruct (search_sql_complete (db w) (term_of "") f Hf (search_where_empty _ _))
        as [?|[_ ?]]; auto.
Qed.

Lemma search_result_list_witness :
  let c := request sample_env (Some "team-secret") "" ∅ (Throw SyntaxError) in
  ∃ rows,
    serve (search calm c) sample_world = (c_json (JArr (format_row <$> rows)) 200, sample_world)
    ∧ (length rows ≤ 50)%nat
    ∧ StronglySorted newer rows
    ∧ NoDup (s_id <$> rows).
Proof.
  intros c.
  destruct (search_result_list calm c sample_world) as (rows & H1 & H2 & H3 & H4 & _).
  - reflexivity.
  - reflexivity.
  - split; apply (bool_decide_unpack _); by vm_compute.
  - exists rows. split_and!; assumption.
Defined.

(** ** C3: which files the search returns *)




(** ** C8: tag-replace is idempotent *)

(** C8: for every existing file and every tag list, a tag-replace by an admin
    followed by the same tag-replace gives the same answer both times and
    leaves, after the second call, the world the first call left; so the
    file's stored tags (and those of every other file) are the same after
    both calls. *)
Theorem update_tags_idempotent
    (p p' : Platform) (c : Context) (w : World) (body : json) (items : list json) :
  below (checkAuth c) ADMIN = false →
  req_json c = Return body →
  prop (Some body) "tags" = Return (Some (JArr items)) →
  db_rejects p 0 = false → db_rejects p 1 = false →
  db_rejects p' 0 = false → db_rejects p' 1 = false →
  req_param_id c ∈ f_id <$> files (db w) →
  let first := serve (update_tags p c) w in
  let second := serve (update_tags p' c) first.2 in
  second.1 = first.1
  ∧ second.2 = first.2
  ∧ ∀ i, tags_of (db second.2) i = tags_of (db first.2) i.
Proof.
  intros Ha Hb Ht Hp0 Hp1 Hp0' Hp1' Hf first second. subst first second.
  destruct (sanitize items) as [ts|e] eqn:Hts.
  - rewrite (update_tags_ok p c w Ha body items ts) by done. cbn [fst snd].
    rewrite (update_tags_ok p' c _ Ha body items ts) by done. cbn [fst snd].
    unfold with_db; simpl. rewrite tags_replaced_idem. done.
  - rewrite (update_tags_not_text p c w Ha body items e) by done. cbn [fst snd].
    by rewrite (update_tags_not_text p' c w Ha body items e).
Qed.

Lemma update_tags_idempotent_witness :
  let c := request sample_env (Some "admin-secret") "f1" ∅ (Return foo_body) in
  let first := serve (update_tags calm c) sample_world in
  let second := serve (update_tags calm c) first.2 in
  second.1 = first.1 ∧ second.2 = first.2.
Proof.
  intros c first second.
  destruct (update_tags_idempotent calm calm c sample_world foo_body foo_tags)
    as (H1 & H2 & _); try reflexivity.
  - apply has_file_true. reflexivity.
  - split; [exact H1|exact H2].
Defined.

(** ** C9: referential integrity *)

(** C9: referential integrity is preserved by every upload, tag-replace and
    delete, from any caller, with any payload, and whichever store call the
    platform lets fail: in every world reached by such requests from a world
    where every tag row references an existing file row, every tag row
    references an existing file row. *)
Theorem referential_integrity_invariant (w w' : World) :
  ref_integrity (db w) → rtc step w w' → ref_integrity (db w').
Proof. intros Hri Hsteps. by apply (steps_ref_integrity w w'). Qed.

Lemma referential_integrity_invariant_witness :
  let c := request sample_env (Some "admin-secret") "f1" ∅ (Return foo_body) in
  ref_integrity (db (serve (delete_file calm c) (serve (update_tags calm c) sample_world).2).2).
Proof.
  intros c. apply (referential_integrity_invariant sample_world).
  - apply (bool_decide_unpack _). by vm_compute.
  - eapply rtc_l; [apply step_update_tags|]. apply rtc_once, step_delete_file.
Defined.

(** ** C5: the delivery path *)

(** C5, as stated, fails on a cache hit: after the file was fetched once and
    then deleted, an authorized request for the same URL still gets the file
    (200) from the edge cache, although its id is no longer in the index and
    its object no longer in the bucket. *)
Lemma deleted_file_served_from_cache :
  let reader := request sample_env (Some "team-secret") "f1" ∅ (Throw SyntaxError) in
  let admin := request sample_env (Some "admin-secret") "f1" ∅ (Throw SyntaxError) in
  let w1 := (serve (get_file calm reader) sample_world).2 in
  let w2 := (serve (delete_file calm admin) w1).2 in
  has_file (db w2) "f1" = false
  ∧ bucket w2 !! "f1" = None
  ∧ isAuth reader = true
  ∧ status (serve (get_file calm reader) w2).1 = 200
  ∧ (serve (get_file calm reader) w2).1 ≠ c_notFound.
Proof. by vm_compute. Qed.

(** C5 (amended): a request to the delivery path is authorized if and only if
    the cookie resolves to TEAM or above or the [?token=] parameter equals
    the team secret; an unauthorized request yields 401.  An authorized
    request whose URL is in the edge cache gets the cached response, without
    the index or the bucket being consulted.  An authorized request whose URL
    is not in the cache yields the same NotFound (404) answer when the id is
    absent from the index and when its storage key is absent from the
    bucket. *)
Theorem get_file_delivery (p : Platform) (c : Context) (w : World) :
  (isAuth c = true ↔
     at_least (checkAuth c) TEAM = true
     ∨ req_query c !! "token" = Some (TEAM_PASSWORD (env c)))
  ∧ (isAuth c = false →
     serve (get_file p c) w = (unauthorized_text, w) ∧ status unauthorized_text = 401)
  ∧ (isAuth c = true →
     ∀ r, cache w !! req_url c = Some r → serve (get_file p c) w = (r, w))
  ∧ (isAuth c = true →
     cache w !! req_url c = None →
     db_rejects p 0 = false →
     (req_param_id c ∉ f_id <$> files (db w) →
      serve (get_file p c) w = (c_notFound, w))
     ∧ (∀ f, select_file (db w) (req_param_id c) = Some f →
             bucket_rejects p 0 = false →
             bucket w !! f_r2_key f = None →
             serve (get_file p c) w = (c_notFound, w))
     ∧ status c_notFound = 404).
Proof.
  split_and!.
  - apply isAuth_spec.
  - intros Hauth. split; [|done]. by apply get_file_denied.
  - intros Hauth r Hr. by apply get_file_cached.
  - intros Hauth Hmiss Hdb. split_and!; [| |done].
    + intros Hf%select_file_None.
      unfold get_file, serve, bind, cache_match, db_read.
      rewrite Hauth; simpl. by rewrite Hmiss, Hdb, Hf.
    + intros f Hf Hb Hnone. rewrite get_file_uncached by done. by rewrite Hf, Hnone.
Qed.

Lemma get_file_delivery_witness :
  let outsider := request sample_env None "f1" ∅ (Throw SyntaxError) in
  let reader := request sample_env (Some "team-secret") "f9" ∅ (Throw SyntaxError) in
  serve (get_file calm outsider) sample_world = (unauthorized_text, sample_world)
  ∧ serve (get_file calm reader) sample_world = (c_notFound, sample_world).
Proof.
  intros outsider reader. split.
  - refine (proj1 (proj1 (proj2 (get_file_delivery calm outsider sample_world)) _)).
    reflexivity.
  - refine (proj1 (proj2 (proj2 (proj2 (get_file_delivery calm reader sample_world)))
                     _ _ _) _); try reflexivity.
    apply select_file_None. reflexivity.
Defined.

(** ** C6: the auth resolver and the ordered threshold checks *)

(** C6, as stated, fails where the two configured secrets are one text: the
    cookie equals the team secret, yet the resolver returns ADMIN, not TEAM,
    and the admin-gated delete goes through instead of failing with 403. *)
Lemma team_secret_resolved_as_admin :
  let c := request one_secret_env (Some "s3cret") "f1" ∅ (Throw SyntaxError) in
  cookie c = Some (TEAM_PASSWORD (env c))
  ∧ checkAuth c = ADMIN
  ∧ checkAuth c ≠ TEAM
  ∧ (serve (delete_file calm c) sample_world).1 = success
  ∧ status success = 200.
Proof. by vm_compute. Qed.

(** C6 (amended): for every presented credential the resolver returns ADMIN
    exactly when the credential equals the admin secret, TEAM exactly when it
    equals the team secret and the team secret is not also the admin secret
    (the admin secret is tried first), and GUEST otherwise, an absent
    credential included.  Consequently the admin secret passes every
    TEAM-gated operation (the search answers 200 with its rows, the delivery
    path is authorized); the team secret, when it differs from the admin
    secret, fails with 403 at each ADMIN-gated endpoint; and an absent
    credential fails with 401 at the TEAM-gated endpoints. *)
Theorem auth_levels_and_gates (p : Platform) (c : Context) (w : World) :
  (checkAuth c = ADMIN ↔ cookie c = Some (ADMIN_PASSWORD (env c)))
  ∧ (checkAuth c = TEAM ↔
       cookie c = Some (TEAM_PASSWORD (env c))
       ∧ TEAM_PASSWORD (env c) ≠ ADMIN_PASSWORD (env c))
  ∧ (checkAuth c = GUEST ↔
       cookie c ≠ Some (ADMIN_PASSWORD (env c))
       ∧ cookie c ≠ Some (TEAM_PASSWORD (env c)))
  ∧ (cookie c = None → checkAuth c = GUEST)
  ∧ (cookie c = Some (ADMIN_PASSWORD (env c)) →
       (db_rejects p 0 = false →
        serve (search p c) w =
        (c_json (JArr (format_row <$> search_sql (db w) (term_of (query_q c)))) 200, w))
       ∧ isAuth c = true)
  ∧ (cookie c = Some (TEAM_PASSWORD (env c)) →
     TEAM_PASSWORD (env c) ≠ ADMIN_PASSWORD (env c) →
       serve (upload p c) w = (admin_only, w)
       ∧ serve (update_tags p c) w = (admin_only, w)
       ∧ serve (delete_file p c) w = (admin_only, w)
       ∧ status admin_only = 403)
  ∧ (cookie c = None →
       serve (search p c) w = (unauthorized_json, w)
       ∧ status unauthorized_json = 401
       ∧ (req_query c !! "token" = None →
          serve (get_file p c) w = (unauthorized_text, w)
          ∧ status unauthorized_text = 401)).
Proof.
  split_and!.
  - apply checkAuth_ADMIN.
  - apply checkAuth_TEAM.
  - apply checkAuth_GUEST.
  - apply checkAuth_absent.
  - intros Hc%checkAuth_ADMIN. split.
    + intros Hdb. apply search_granted; [by rewrite Hc|done].
    + apply isAuth_spec. left. by rewrite Hc.
  - intros Hc Hne. assert (checkAuth c = TEAM) as Ht by (by apply checkAuth_TEAM).
    split_and!; [apply upload_denied|apply update_tags_denied|apply delete_file_denied|done];
      by rewrite Ht.
  - intros Hc%checkAuth_absent. split_and!; [|done|].
    + apply search_denied. by rewrite Hc.
    + intros Ht. split; [|done]. apply get_file_denied.
      destruct (isAuth c) eqn:Hauth; [|done].
      apply isAuth_spec in Hauth as [Hl|Hq]; [by rewrite Hc in Hl|by rewrite Ht in Hq].
Qed.

Lemma auth_levels_and_gates_witness :
  let admin := request sample_env (Some "admin-secret") "f1" ∅ (Throw SyntaxError) in
  let team := request sample_env (Some "team-secret") "f1" ∅ (Throw SyntaxError) in
  let nobody := request sample_env None "f1" ∅ (Throw SyntaxError) in
  isAuth admin = true
  ∧ serve (delete_file calm team) sample_world = (admin_only, sample_world)
  ∧ serve (search calm nobody) sample_world = (unauthorized_json, sample_world).
Proof.
  intros admin team nobody. split_and!.
  - apply (auth_levels_and_gates calm admin sample_world). reflexivity.
  - apply (auth_levels_and_gates calm team sample_world); [reflexivity|by vm_compute].
  - apply (auth_levels_and_gates calm nobody sample_world). reflexivity.
Defined.

(** ** C10: the admin secret as a URL token *)

(** C10, as stated, fails where the two configured secrets are one text: the
    admin secret presented as [?token=] without a cookie is accepted, and the
    file is delivered. *)
Lemma admin_secret_accepted_as_token :
  let c := request one_secret_env None "f1" {[ "token" := "s3cret" ]} (Throw SyntaxError) in
  req_query c !! "token" = Some (ADMIN_PASSWORD (env c))
  ∧ checkAuth c = GUEST
  ∧ isAuth c = true
  ∧ status (serve (get_file calm c) sample_world).1 = 200.
Proof. by vm_compute. Qed.

(** C10 (amended): on the delivery path, without a valid cookie, a request is
    authorized exactly when its [?token=] parameter equals the team secret.
    So the admin secret presented as the token is rejected with 401 whenever
    it differs from the team secret, even though an admin cookie is accepted
    on the same path. *)
Theorem url_token_is_team_secret (p : Platform) (c : Context) (w : World) :
  checkAuth c = GUEST →
  (isAuth c = true ↔ req_query c !! "token" = Some (TEAM_PASSWORD (env c)))
  ∧ (req_query c !! "token" = Some (ADMIN_PASSWORD (env c)) →
     ADMIN_PASSWORD (env c) ≠ TEAM_PASSWORD (env c) →
     serve (get_file p c) w = (unauthorized_text, w) ∧ status unauthorized_text = 401)
  ∧ (∀ c', cookie c' = Some (ADMIN_PASSWORD (env c')) → isAuth c' = true).
Proof.
  intros Hg. split_and!.
  - rewrite isAuth_spec, Hg. split; [|by right]. by intros [?|?].
  - intros Ht Hne. split; [|done]. apply get_file_denied.
    destruct (isAuth c) eqn:Hauth; [|done].
    apply isAuth_spec in Hauth as [Hl|Hq]; [by rewrite Hg in Hl|]. congruence.
  - intros c' Hc%checkAuth_ADMIN. apply isAuth_spec. left. by rewrite Hc.
Qed.

Lemma url_token_is_team_secret_witness :
  let c := request sample_env None "f1" {[ "token" := "admin-secret" ]} (Throw SyntaxError) in
  serve (get_file calm c) sample_world = (unauthorized_text, sample_world)
  ∧ status unauthorized_text = 401.
Proof.
  intros c.
  apply (url_token_is_team_secret calm c sample_world); [reflexivity|reflexivity|by vm_compute].
Defined.

(* ====================================================================== *)
(** * Beyond the statements: the rest of the worker *)
(* ====================================================================== *)

Section normal_form.
Implicit Types (s t : string) (c : ascii).

Lemma is_space_lower_char c : Text.is_space (Text.lower_char c) = Text.is_space c.
Proof. by destruct c as [[] [] [] [] [] [] [] []]. Qed.

Lemma lower_char_idem c : Text.lower_char (Text.lower_char c) = Text.lower_char c.
Proof. by destruct c as [[] [] [] [] [] [] [] []]. Qed.

Lemma toLowerCase_idem s : Text.toLowerCase (Text.toLowerCase s) = Text.toLowerCase s.
Proof. induction s as [|c s IH]; [done|]. simpl. by rewrite lower_char_idem, IH. Qed.

Lemma nonempty_toLowerCase s : Text.nonempty (Text.toLowerCase s) = Text.nonempty s.
Proof. by destruct s. Qed.

Lemma has_space_toLowerCase s : has_space (Text.toLowerCase s) = has_space s.
Proof. induction s as [|c s IH]; [done|]. simpl. by rewrite is_space_lower_char, IH. Qed.

Lemma trimStart_toLowerCase s :
  Text.trimStart (Text.toLowerCase s) = Text.toLowerCase (Text.trimStart s).
Proof.
  induction s as [|c s IH]; [done|]. simpl. rewrite is_space_lower_char.
  by destruct (Text.is_space c).
Qed.

Lemma trimEnd_toLowerCase s :
  Text.trimEnd (Text.toLowerCase s) = Text.toLowerCase (Text.trimEnd s).
Proof.
  induction s as [|c s IH]; [done|]. simpl. rewrite IH, is_space_lower_char.
  destruct (Text.trimEnd s); simpl; [|done]. by destruct (Text.is_space c).
Qed.

Lemma trim_toLowerCase s : Text.trim (Text.toLowerCase s) = Text.toLowerCase (Text.trim s).
Proof. unfold Text.trim. by rewrite trimStart_toLowerCase, trimEnd_toLowerCase. Qed.

Lemma trimStart_idem s : Text.trimStart (Text.trimStart s) = Text.trimStart s.
Proof.
  induction s as [|c s IH]; [done|]. simpl.
  destruct (Text.is_space c) eqn:Hc; [done|]. simpl. by rewrite Hc.
Qed.

Lemma trimEnd_idem s : Text.trimEnd (Text.trimEnd s) = Text.trimEnd s.
Proof.
  induction s as [|c s IH]; [done|]. simpl.
  destruct (Text.trimEnd s) as [|d r] eqn:Hr.
  - destruct (Text.is_space c) eqn:Hc; [done|]. simpl. by rewrite Hc.
  - change (Text.trimEnd (String c (String d r))) with
      (match Text.trimEnd (String d r) with
       | EmptyString => if Text.is_space c then EmptyString else String c EmptyString
       | r' => String c r'
       end).
    by rewrite IH.
Qed.

Lemma trimStart_trimEnd s :
  Text.trimStart (Text.trimEnd s) = Text.trimEnd (Text.trimStart s).
Proof.
  induction s as [|c s IH]; [done|].
  destruct (Text.is_space c) eqn:Hc.
  - simpl. rewrite Hc, <-IH. destruct (Text.trimEnd s); [done|]. simpl. by rewrite Hc.
  - cbn [Text.trimStart]. rewrite Hc. simpl.
    destruct (Text.trimEnd s); rewrite ?Hc; simpl; by rewrite Hc.
Qed.

Lemma trim_idem s : Text.trim (Text.trim s) = Text.trim s.
Proof.
  unfold Text.trim.
  by rewrite (trimStart_trimEnd (Text.trimStart s)), trimStart_idem, trimEnd_idem.
Qed.

Lemma trimEnd_no_space s : has_space s = false → Text.trimEnd s = s.
Proof.
  induction s as [|c s IH]; [done|]. simpl. intros [Hc Hs]%orb_false_iff.
  rewrite IH by done. destruct s; [by rewrite Hc|done].
Qed.

Lemma trim_no_space s : has_space s = false → Text.trim s = s.
Proof.
  intros Hs. unfold Text.trim.
  assert (Text.trimStart s = s) as ->.
  { destruct s as [|c s]; [done|]. simpl in *. apply orb_false_iff in Hs as [-> _]. done. }
  by apply trimEnd_no_space.
Qed.

(** What tag-replace stores is in normal form. *)
Lemma normal_tag_sanitized v t :
  tag_text v = Return t → t ≠ "" → normal_tag t.
Proof.
  unfold tag_text. destruct (toString v) as [s|e]; [|done].
  intros [= <-] Hne. split_and!; [|by rewrite trim_toLowerCase, trim_idem|apply toLowerCase_idem].
  by destruct (Text.toLowerCase _).
Qed.

(** What an upload stores is in normal form. *)
Lemma normal_tag_token tok :
  Text.nonempty tok = true → has_space tok = false → normal_tag (Text.toLowerCase tok).
Proof.
  intros Hne Hs. split_and!.
  - by rewrite nonempty_toLowerCase.
  - apply trim_no_space. by rewrite has_space_toLowerCase.
  - apply toLowerCase_idem.
Qed.

Lemma cons_piece_no_space c ps :
  Text.is_space c = false →
  Forall (λ t, has_space t = false) ps →
  Forall (λ t, has_space t = false) (Text.cons_piece c ps).
Proof.
  intros Hc Hps. destruct Hps as [|t ps Ht Hps]; simpl.
  - constructor; [|done]. simpl. by rewrite Hc.
  - constructor; [|done]. simpl. by rewrite Hc.
Qed.

(** The pieces of a split at white space have no white space. *)
Lemma split_spaces_from_no_space b s :
  Forall (λ t, has_space t = false) (Text.split_spaces_from b s).
Proof.
  revert b. induction s as [|c s IH]; intros b; simpl.
  - by constructor.
  - destruct (Text.is_space c) eqn:Hc.
    + destruct b; [apply IH|]. constructor; [done|apply IH].
    + by apply cons_piece_no_space.
Qed.
End normal_form.

(** ** Reading the tables after a change *)

Lemma has_file_false d i : has_file d i = false ↔ i ∉ f_id <$> files d.
Proof. unfold has_file. apply bool_decide_eq_false. Qed.

Lemma no_rows_of_missing_file d i :
  ref_integrity d → has_file d i = false →
  filter (λ r, ft_file_id r = i) (file_tags d) = [].
Proof.
  intros Hri Hf%has_file_false.
  destruct (filter _ _) as [|r l] eqn:Hrows; [done|].
  assert (r ∈ filter (λ r, ft_file_id r = i) (file_tags d)) as Hr
    by (rewrite Hrows; by left).
  apply list_elem_of_filter in Hr as [<- Hr]. by apply Hri in Hr.
Qed.

Lemma select_file_app_fresh d row tags j :
  has_file d (f_id row) = false →
  select_file (mkDB (foreign_keys d) (files d ++ [row]) tags) j
  = if decide (j = f_id row) then Some row else select_file d j.
Proof.
  intros Hfresh%has_file_false. unfold select_file; simpl. rewrite filter_app.
  destruct (decide (j = f_id row)) as [->|Hne].
  - assert (filter (λ f, f_id f = f_id row) (files d) = []) as ->.
    { apply head_None. by apply (select_file_None d). }
    by rewrite filter_cons_True.
  - rewrite (filter_cons_False _ row) by done. by rewrite filter_nil, app_nil_r.
Qed.

Lemma select_file_delete d i tags j :
  select_file (mkDB (foreign_keys d) (filter (λ f, f_id f ≠ i) (files d)) tags) j
  = if decide (j = i) then None else select_file d j.
Proof.
  unfold select_file; simpl.
  induction (files d) as [|f l IH]; [by destruct (decide (j = i))|].
  destruct (decide (f_id f = i)) as [Hi|Hi].
  - rewrite filter_cons_False by auto. rewrite IH.
    destruct (decide (j = i)) as [->|Hne]; [done|].
    rewrite (filter_cons_False _ f); [done|]. congruence.
  - rewrite filter_cons_True by done.
    destruct (decide (f_id f = j)) as [Hj|Hj].
    + rewrite !filter_cons_True by done. simpl.
      destruct (decide (j = i)); [congruence|done].
    + rewrite !filter_cons_False by done. apply IH.
Qed.

Lemma tags_of_delete_tags d i fs j :
  tags_of (mkDB (foreign_keys d) fs (filter (λ r, ft_file_id r ≠ i) (file_tags d))) j
  = if decide (j = i) then [] else tags_of d j.
Proof.
  unfold tags_of; simpl. destruct (decide (j = i)) as [->|Hne].
  - by rewrite filter_in_out.
  - f_equal. induction (file_tags d) as [|r rows IH]; [done|].
    destruct (decide (ft_file_id r = i)) as [Hi|Hi].
    + rewrite filter_cons_False by auto. rewrite (filter_cons_False _ r); [done|]. congruence.
    + rewrite filter_cons_True by done.
      destruct (decide (ft_file_id r = j)).
      * rewrite !filter_cons_True by done. by rewrite IH.
      * by rewrite !filter_cons_False by done.
Qed.

(** ** POST /api/upload *)

Section upload_facts.
Context (p : Platform) (c : Context) (w : World) (file : File).
Hypothesis is_admin : below (checkAuth c) ADMIN = false.
Hypothesis has_file_field : req_form c !! "file" = Some (FFile file).
Hypothesis bucket_ok : bucket_rejects p 0 = false.

Local Abbreviation id := (randomUUID p).
Local Abbreviation w_blob :=
  (mkWorld (db w) (<[id := uploaded_object p file]> (bucket w)) (cache w) (outbox w)).

(** Once the object is written, what is left is the index write. *)
Lemma upload_cases :
  serve (upload p c) w =
  match upload_tags (req_form c !! "tags") with
  | Throw _ => (internal_server_error, w_blob)
  | Return tags =>
      if db_rejects p 0 || has_file (db w) id then (internal_server_error, w_blob)
      else (success,
            with_db w_blob
              (mkDB (foreign_keys (db w)) (files (db w) ++ [uploaded_row p file])
                 (inserted id (Text.toLowerCase <$> tags) (file_tags (db w)))))
  end.
Proof.
  unfold serve, upload. rewrite is_admin, has_file_field.
  unfold bind, bucket_put, lift, db_batch. rewrite bucket_ok.
  destruct (upload_tags _) as [tags|e]; [|done].
  simpl. destruct (db_rejects p 0); [done|]. simpl.
  destruct (has_file (db w) id) eqn:Hhas; [done|].
  rewrite (list_fmap_compose Text.toLowerCase (InsertOrIgnoreTag id)).
  rewrite exec_all_inserts; [done|].
  apply has_file_true. simpl. rewrite fmap_app, elem_of_app. right.
  by apply list_elem_of_singleton.
Qed.
End upload_facts.

Lemma tags_of_inserted_fresh d i ts fs :
  filter (λ r, ft_file_id r = i) (file_tags d) = [] →
  NoDup (tags_of (mkDB (foreign_keys d) fs (inserted i ts (file_tags d))) i)
  ∧ (∀ t, t ∈ tags_of (mkDB (foreign_keys d) fs (inserted i ts (file_tags d))) i ↔ t ∈ ts)
  ∧ ∀ j, j ≠ i →
      tags_of (mkDB (foreign_keys d) fs (inserted i ts (file_tags d))) j = tags_of d j.
Proof.
  intros Hnone. unfold tags_of; simpl. split_and!.
  - destruct (inserted_spec i ts (file_tags d)) as (new & -> & Hnd & _ & _).
    rewrite filter_app, Hnone, filter_fresh_rows. simpl.
    rewrite <-list_fmap_compose.
    assert ((ft_tag ∘ mkTag i) <$> new = new) as ->; [|done].
    clear. induction new; [done|]. simpl. by f_equal.
  - destruct (inserted_spec i ts (file_tags d)) as (new & -> & _ & _ & Hel).
    rewrite filter_app, Hnone, filter_fresh_rows. simpl.
    rewrite <-list_fmap_compose.
    assert ((ft_tag ∘ mkTag i) <$> new = new) as ->.
    { clear. induction new; [done|]. simpl. by f_equal. }
    intros t. rewrite Hel. split; [tauto|]. intros Ht. split; [done|].
    intros Hin. assert (mkTag i t ∈ filter (λ r, ft_file_id r = i) (file_tags d)) as Hf
      by (by apply list_elem_of_filter).
    rewrite Hnone in Hf. by apply elem_of_nil in Hf.
  - intros j Hne. by rewrite filter_inserted_other.
Qed.

(** ** The upload that succeeds *)

(** X4: an upload by an admin, with a file and a tag string, a fresh id and no
    store failure, answers success; afterwards the index has the file row
    under the new id with the size and the time of the upload, the bucket has
    the object under the same key, the file's tags are the tokens of the tag
    string between white space, lowercased, each once; and every other file
    and object is as before. *)
Theorem upload_stores
    (p : Platform) (c : Context) (w : World) (file : File) (s : string) :
  below (checkAuth c) ADMIN = false →
  req_form c !! "file" = Some (FFile file) →
  req_form c !! "tags" = Some (FText s) →
  bucket_rejects p 0 = false →
  db_rejects p 0 = false →
  has_file (db w) (randomUUID p) = false →
  ref_integrity (db w) →
  let r := serve (upload p c) w in
  let i := randomUUID p in
  r.1 = success
  ∧ select_file (db r.2) i = Some (mkFile i (file_name file) i (file_size file) (now p))
  ∧ bucket r.2 !! i
    = Some (mkObject (file_stream file) (Some (file_type file)) (new_etag p))
  ∧ NoDup (tags_of (db r.2) i)
  ∧ (∀ t, t ∈ tags_of (db r.2) i ↔
          ∃ tok, tok ∈ Text.split_spaces s ∧ tok ≠ "" ∧ t = Text.toLowerCase tok)
  ∧ (∀ j, j ≠ i →
          select_file (db r.2) j = select_file (db w) j
          ∧ tags_of (db r.2) j = tags_of (db w) j
          ∧ bucket r.2 !! j = bucket w !! j).
Proof.
  intros Ha Hfile Htags Hb Hdb Hfresh Hri r i. subst r i.
  rewrite (upload_cases p c w file Ha Hfile Hb), Htags. simpl.
  rewrite Hdb, Hfresh. simpl.
  pose proof (no_rows_of_missing_file _ _ Hri Hfresh) as Hnone.
  destruct (tags_of_inserted_fresh (db w) (randomUUID p)
              (Text.toLowerCase <$> filter (λ t, Text.nonempty t) (Text.split_spaces s))
              (files (db w) ++ [uploaded_row p file]) Hnone) as (Hnd & Hel & Hother).
  split_and!.
  - done.
  - rewrite (select_file_app_fresh (db w) (uploaded_row p file)) by done.
    by rewrite decide_True.
  - by rewrite lookup_insert_eq.
  - done.
  - intros t. rewrite Hel, list_elem_of_fmap. split.
    + intros (tok & -> & [Hne Htok]%list_elem_of_filter). exists tok.
      split_and!; [done| |done]. intros ->. done.
    + intros (tok & Htok & Hne & ->). exists tok. split; [done|].
      apply list_elem_of_filter. split; [|done]. by destruct tok.
  - intros j Hne. split_and!.
    + rewrite (select_file_app_fresh (db w) (uploaded_row p file)) by done.
      by rewrite decide_False.
    + by apply Hother.
    + by rewrite lookup_insert_ne.
Qed.

Lemma upload_stores_witness :
  let r := serve (upload calm upload_request) sample_world in
  r.1 = success
  ∧ select_file (db r.2) "f3" = Some (mkFile "f3" "Plan.PDF" "f3" 3 3000)
  ∧ select_file (db r.2) "f1" = select_file sample_db "f1".
Proof.
  intros r.
  destruct (upload_stores calm upload_request sample_world
              (mkFormFile "Plan.PDF" "application/pdf" 3 "abc") "Q4  Budget q4")
    as (H1 & H2 & _ & _ & _ & H3); try reflexivity.
  - apply (bool_decide_unpack _). by vm_compute.
  - split_and!; [exact H1|exact H2|]. by apply (H3 "f1").
Defined.

(** X5: an upload that got as far as writing the object but whose index write
    did not happen (the form has no text field [tags], the index rejects, or
    the id is taken) answers 500, leaves the index as it was, and leaves the
    object in the bucket under the new key. *)
Theorem upload_leaves_object
    (p : Platform) (c : Context) (w : World) (file : File) :
  below (checkAuth c) ADMIN = false →
  req_form c !! "file" = Some (FFile file) →
  bucket_rejects p 0 = false →
  (∀ s, req_form c !! "tags" ≠ Some (FText s))
  ∨ db_rejects p 0 = true
  ∨ has_file (db w) (randomUUID p) = true →
  let r := serve (upload p c) w in
  status r.1 = 500
  ∧ db r.2 = db w
  ∧ bucket r.2 !! randomUUID p
    = Some (mkObject (file_stream file) (Some (file_type file)) (new_etag p)).
Proof.
  intros Ha Hfile Hb Hwhy r. subst r.
  rewrite (upload_cases p c w file Ha Hfile Hb).
  assert (∀ w', w' = mkWorld (db w) (<[randomUUID p := uploaded_object p file]> (bucket w))
                        (cache w) (outbox w) →
          status internal_server_error = 500 ∧ db w' = db w
          ∧ bucket w' !! randomUUID p = Some (uploaded_object p file)) as Hblob.
  { intros w' ->. simpl. by rewrite lookup_insert_eq. }
  destruct (upload_tags _) as [tags|e] eqn:Htags; [|by apply Hblob].
  destruct Hwhy as [Hno|[->| ->]]; [|by apply Hblob|rewrite orb_true_r; by apply Hblob].
  unfold upload_tags in Htags.
  destruct (req_form c !! "tags") as [[s|]|]; try done. by destruct (Hno s).
Qed.

Lemma upload_leaves_object_witness :
  let c := mkContext sample_env (Some "admin-secret") "https://docs.example/api/upload"
             "https://docs.example" ∅ "" (Throw SyntaxError)
             {[ "file" := FFile (mkFormFile "Plan.PDF" "application/pdf" 3 "abc") ]} in
  let r := serve (upload calm c) sample_world in
  status r.1 = 500 ∧ db r.2 = sample_db
  ∧ bucket r.2 !! "f3" = Some (mkObject "abc" (Some "application/pdf") "etag-3").
Proof.
  intros c r.
  apply (upload_leaves_object calm c sample_world
           (mkFormFile "Plan.PDF" "application/pdf" 3 "abc")); try reflexivity.
  left. intros s. by vm_compute.
Defined.

(** X6: what was uploaded is what the delivery path serves: after a successful
    upload, an authorized request for the new id that misses the cache gets
    200 with the bytes of the file and, as content type, the type the upload
    declared, or [application/octet-stream] if it declared none. *)
Theorem upload_then_get_file
    (p p' : Platform) (c c' : Context) (w : World) (file : File) (s : string) :
  below (checkAuth c) ADMIN = false →
  req_form c !! "file" = Some (FFile file) →
  req_form c !! "tags" = Some (FText s) →
  bucket_rejects p 0 = false →
  db_rejects p 0 = false →
  has_file (db w) (randomUUID p) = false →
  isAuth c' = true →
  req_param_id c' = randomUUID p →
  cache w !! req_url c' = None →
  db_rejects p' 0 = false →
  bucket_rejects p' 0 = false →
  let r := (serve (get_file p' c') (serve (upload p c) w).2).1 in
  status r = 200
  ∧ body r = BStream (file_stream file)
  ∧ ("Content-Type",
     if Text.nonempty (file_type file) then file_type file
     else "application/octet-stream") ∈ headers r.
Proof.
  intros Ha Hfile Htags Hb Hdb Hfresh Hauth Hid Hmiss Hdb' Hb' r. subst r.
  rewrite (upload_cases p c w file Ha Hfile Hb), Htags. simpl.
  rewrite Hdb, Hfresh. simpl.
  rewrite get_file_uncached by done. simpl. rewrite Hid.
  rewrite (select_file_app_fresh (db w) (uploaded_row p file)) by done.
  rewrite decide_True by done. simpl. rewrite lookup_insert_eq. simpl.
  split_and!; [done|done|]. right. by left.
Qed.

Lemma upload_then_get_file_witness :
  let reader :=
    request sample_env None "f3" {[ "token" := "team-secret" ]} (Throw SyntaxError) in
  let r := (serve (get_file calm reader) (serve (upload calm upload_request) sample_world).2).1 in
  status r = 200 ∧ body r = BStream "abc" ∧ ("Content-Type", "application/pdf") ∈ headers r.
Proof.
  intros reader r.
  apply (upload_then_get_file calm calm upload_request reader sample_world
           (mkFormFile "Plan.PDF" "application/pdf" 3 "abc") "Q4  Budget q4");
    reflexivity.
Defined.

(** ** DELETE /api/file/:id *)

Section delete_facts.
Context (p : Platform) (c : Context) (w : World).
Hypothesis is_admin : below (checkAuth c) ADMIN = false.
Hypothesis db_ok : db_rejects p 0 = false.

Local Abbreviation i := (req_param_id c).

Lemma delete_file_missing :
  select_file (db w) i = None → serve (delete_file p c) w = (success, w).
Proof.
  intros Hsel. unfold serve, delete_file, bind, db_read.
  by rewrite is_admin, db_ok, Hsel.
Qed.

Lemma delete_file_ok f :
  select_file (db w) i = Some f →
  bucket_rejects p 0 = false →
  db_rejects p 1 = false →
  db_rejects p 2 = false →
  serve (delete_file p c) w =
  (success,
   mkWorld
     (mkDB (foreign_keys (db w)) (filter (λ g, f_id g ≠ i) (files (db w)))
        (filter (λ r, ft_file_id r ≠ i) (file_tags (db w))))
     (delete (f_r2_key f) (bucket w)) (cache w) (outbox w)).
Proof.
  intros Hsel Hb H1 H2. unfold serve, delete_file, bind, db_read, bucket_delete, db_batch.
  rewrite is_admin, db_ok, Hsel, Hb, H1. simpl. rewrite H2. simpl.
  destruct (foreign_keys (db w)); [|done]. by rewrite filter_out_out.
Qed.

Lemma delete_file_v1_ok f :
  select_file (db w) i = Some f →
  bucket_rejects p 0 = false →
  db_rejects p 1 = false →
  serve (delete_file_v1 p c) w =
  (success,
   mkWorld
     (mkDB (foreign_keys (db w)) (filter (λ g, f_id g ≠ i) (files (db w)))
        (if foreign_keys (db w)
         then filter (λ r, ft_file_id r ≠ i) (file_tags (db w))
         else file_tags (db w)))
     (delete (f_r2_key f) (bucket w)) (cache w) (outbox w)).
Proof.
  intros Hsel Hb H1. unfold serve, delete_file_v1, bind, db_read, bucket_delete, db_batch.
  by rewrite is_admin, db_ok, Hsel, Hb, H1.
Qed.
End delete_facts.

(** X7: a delete by an admin of a file that exists, with no store failure,
    answers success; afterwards the index has no row and no tag for the id,
    the bucket has no object under the file's key, every other file, tag and
    object is as before, and the edge cache is untouched. *)
Theorem delete_removes (p : Platform) (c : Context) (w : World) (f : FileRow) :
  below (checkAuth c) ADMIN = false →
  db_rejects p 0 = false → db_rejects p 1 = false → db_rejects p 2 = false →
  bucket_rejects p 0 = false →
  select_file (db w) (req_param_id c) = Some f →
  let r := serve (delete_file p c) w in
  let i := req_param_id c in
  r.1 = success
  ∧ select_file (db r.2) i = None
  ∧ tags_of (db r.2) i = []
  ∧ bucket r.2 !! f_r2_key f = None
  ∧ (∀ j, j ≠ i →
       select_file (db r.2) j = select_file (db w) j
       ∧ tags_of (db r.2) j = tags_of (db w) j)
  ∧ (∀ k, k ≠ f_r2_key f → bucket r.2 !! k = bucket w !! k)
  ∧ cache r.2 = cache w.
Proof.
  intros Ha H0 H1 H2 Hb Hsel r i. subst r i.
  rewrite (delete_file_ok p c w Ha H0 f) by done. simpl.
  split_and!.
  - done.
  - by rewrite select_file_delete, decide_True.
  - by rewrite tags_of_delete_tags, decide_True.
  - by rewrite lookup_delete_eq.
  - intros j Hne. split.
    + by rewrite select_file_delete, decide_False.
    + by rewrite tags_of_delete_tags, decide_False.
  - intros k Hne. by rewrite lookup_delete_ne.
  - done.
Qed.

Lemma delete_removes_witness :
  let c := request sample_env (Some "admin-secret") "f1" ∅ (Throw SyntaxError) in
  let r := serve (delete_file calm c) sample_world in
  r.1 = success ∧ select_file (db r.2) "f1" = None ∧ tags_of (db r.2) "f1" = [].
Proof.
  intros c r.
  destruct (delete_removes calm c sample_world (mkFile "f1" "report.pdf" "f1" 2048 1000))
    as (H1 & H2 & H3 & _); try reflexivity.
  split_and!; [exact H1|exact H2|exact H3].
Defined.

(** X8: a delete of an id that is not in the index answers success and changes
    nothing; so a delete that went through, repeated, answers success again
    and leaves the world the first one left. *)
Theorem delete_file_twice (p p' : Platform) (c : Context) (w : World) :
  below (checkAuth c) ADMIN = false →
  db_rejects p' 0 = false →
  (select_file (db w) (req_param_id c) = None →
   serve (delete_file p' c) w = (success, w))
  ∧ (db_rejects p 0 = false → db_rejects p 1 = false → db_rejects p 2 = false →
     bucket_rejects p 0 = false →
     let first := serve (delete_file p c) w in
     serve (delete_file p' c) first.2 = (success, first.2)).
Proof.
  intros Ha H0'. split.
  - by apply delete_file_missing.
  - intros H0 H1 H2 Hb first. subst first.
    destruct (select_file (db w) (req_param_id c)) as [f|] eqn:Hsel.
    + rewrite (delete_file_ok p c w Ha H0 f) by done. cbn [snd].
      apply delete_file_missing; [done|done|]. simpl.
      by rewrite select_file_delete, decide_True.
    + rewrite (delete_file_missing p c w Ha H0 Hsel). cbn [snd].
      by apply delete_file_missing.
Qed.

Lemma delete_file_twice_witness :
  let c := request sample_env (Some "admin-secret") "f1" ∅ (Throw SyntaxError) in
  let first := serve (delete_file calm c) sample_world in
  serve (delete_file calm c) first.2 = (success, first.2).
Proof.
  intros c first.
  apply (delete_file_twice calm calm c sample_world); reflexivity.
Defined.

(** X9: after a delete that went through, no search lists the id, whatever the
    query, and an authorized request for the id that misses the cache gets
    NotFound. *)
Theorem delete_then_gone
    (p p' : Platform) (c c' : Context) (w : World) (f : FileRow) (term : string) :
  below (checkAuth c) ADMIN = false →
  db_rejects p 0 = false → db_rejects p 1 = false → db_rejects p 2 = false →
  bucket_rejects p 0 = false →
  select_file (db w) (req_param_id c) = Some f →
  let w' := (serve (delete_file p c) w).2 in
  (req_param_id c ∉ s_id <$> search_sql (db w') term)
  ∧ (isAuth c' = true →
     req_param_id c' = req_param_id c →
     cache w !! req_url c' = None →
     db_rejects p' 0 = false →
     serve (get_file p' c') w' = (c_notFound, w')).
Proof.
  intros Ha H0 H1 H2 Hb Hsel w'. subst w'.
  rewrite (delete_file_ok p c w Ha H0 f) by done. cbn [snd]. split.
  - intros (r & Hid & (g & Hg & _ & ->)%search_sql_elem)%list_elem_of_fmap.
    simpl in Hid, Hg. apply list_elem_of_filter in Hg as [Hne _]. by rewrite Hid in Hne.
  - intros Hauth Hid Hmiss H0'.
    unfold get_file, serve, bind, cache_match, db_read. rewrite Hauth.
    cbn [negb cache db]. rewrite Hmiss, H0', Hid. cbn [db].
    by rewrite select_file_delete, decide_True.
Qed.

Lemma delete_then_gone_witness :
  let c := request sample_env (Some "admin-secret") "f1" ∅ (Throw SyntaxError) in
  let w' := (serve (delete_file calm c) sample_world).2 in
  "f1" ∉ s_id <$> search_sql (db w') (term_of "report").
Proof.
  intros c w'.
  apply (delete_then_gone calm calm c c sample_world
           (mkFile "f1" "report.pdf" "f1" 2048 1000) (term_of "report")); reflexivity.
Defined.

(** X10: the delete of the earlier revisions removes the file row and the object
    but leaves the tag rows to the schema: they go if the database enforces
    foreign keys and stay otherwise.  So it keeps referential integrity
    exactly when foreign keys are enforced or the file had no tag. *)
Theorem delete_v1_leaves_tags (p : Platform) (c : Context) (w : World) (f : FileRow) :
  below (checkAuth c) ADMIN = false →
  db_rejects p 0 = false → db_rejects p 1 = false →
  bucket_rejects p 0 = false →
  select_file (db w) (req_param_id c) = Some f →
  ref_integrity (db w) →
  let r := serve (delete_file_v1 p c) w in
  let i := req_param_id c in
  r.1 = success
  ∧ select_file (db r.2) i = None
  ∧ bucket r.2 !! f_r2_key f = None
  ∧ tags_of (db r.2) i = (if foreign_keys (db w) then [] else tags_of (db w) i)
  ∧ (ref_integrity (db r.2) ↔ foreign_keys (db w) = true ∨ tags_of (db w) i = []).
Proof.
  intros Ha H0 H1 Hb Hsel Hri r i. subst r i.
  rewrite (delete_file_v1_ok p c w Ha H0 f) by done. simpl.
  split_and!.
  - done.
  - by rewrite select_file_delete, decide_True.
  - by rewrite lookup_delete_eq.
  - destruct (foreign_keys (db w)) eqn:Hfk.
    + rewrite <-Hfk. by rewrite tags_of_delete_tags, decide_True.
    + done.
  - split.
    + intros Hri'. destruct (foreign_keys (db w)) eqn:Hfk; [by left|right].
      destruct (tags_of (db w) (req_param_id c)) as [|t ts] eqn:Hts; [done|exfalso].
      unfold tags_of in Hts.
      destruct (filter _ (file_tags (db w))) as [|r rows] eqn:Hrows; [done|].
      assert (r ∈ filter (λ r, ft_file_id r = req_param_id c) (file_tags (db w))) as Hr
        by (rewrite Hrows; by left).
      apply list_elem_of_filter in Hr as [Hid Hr].
      apply Hri' in Hr. simpl in Hr. apply list_elem_of_fmap in Hr as (g & Hg & Hin).
      apply list_elem_of_filter in Hin as [Hne _]. congruence.
    + intros Hwhy.
      pose proof (ref_integrity_delete_file (db w) (req_param_id c) Hri) as Hdel.
      destruct (foreign_keys (db w)) eqn:Hfk.
      * intros r Hr; simpl in *. apply list_elem_of_filter in Hr as [Hne Hr].
        apply Hri in Hr. apply list_elem_of_fmap in Hr as (g & Hg & Hin).
        apply list_elem_of_fmap. exists g. split; [done|].
        apply list_elem_of_filter. split; [congruence|done].
      * apply Hdel. destruct Hwhy as [?|Hnone]; [done|].
        intros r Hr Hid. unfold tags_of in Hnone. apply fmap_nil_inv in Hnone.
        assert (r ∈ filter (λ r, ft_file_id r = req_param_id c) (file_tags (db w))) as Hf
          by (by apply list_elem_of_filter).
        rewrite Hnone in Hf. by apply elem_of_nil in Hf.
Qed.

Lemma delete_v1_leaves_tags_witness :
  let c := request sample_env (Some "admin-secret") "f1" ∅ (Throw SyntaxError) in
  let w := mkWorld (mkDB false (files sample_db) (file_tags sample_db)) sample_bucket ∅ [] in
  let r := serve (delete_file_v1 calm c) w in
  tags_of (db r.2) "f1" = ["finance"; "q3"] ∧ ¬ ref_integrity (db r.2).
Proof.
  intros c w r.
  destruct (delete_v1_leaves_tags calm c w (mkFile "f1" "report.pdf" "f1" 2048 1000))
    as (_ & _ & _ & Htags & Hiff); try reflexivity.
  - apply (bool_decide_unpack _). by vm_compute.
  - split; [exact Htags|]. intros Hri. apply Hiff in Hri as [Hfk|Hnone]; done.
Defined.

(** ** The joined query of the webhook and of the earlier search *)

Lemma elem_of_left_join d f o :
  (f, o) ∈ left_join d ↔
  f ∈ files d
  ∧ match o with
    | None => filter (λ r, ft_file_id r = f_id f) (file_tags d) = []
    | Some t => t ∈ file_tags d ∧ ft_file_id t = f_id f
    end.
Proof.
  unfold left_join. rewrite list_elem_of_bind. split.
  - intros (g & Hin & Hg).
    destruct (filter _ (file_tags d)) as [|t ts] eqn:Hrows.
    + apply list_elem_of_singleton in Hin as [= -> ->]. done.
    + apply list_elem_of_fmap in Hin as (t' & [= -> ->] & Ht').
      rewrite <-Hrows in Ht'. apply list_elem_of_filter in Ht' as [? ?]. done.
  - intros [Hf Ho]. exists f. split; [|done]. destruct o as [t|].
    + destruct Ho as [Ht Hid].
      assert (t ∈ filter (λ r, ft_file_id r = f_id f) (file_tags d)) as Hin
        by (by apply list_elem_of_filter).
      destruct (filter _ (file_tags d)) as [|t' ts]; [by apply elem_of_nil in Hin|].
      apply list_elem_of_fmap. eauto.
    + rewrite Ho. by left.
Qed.

(** A file has a joined row that satisfies the WHERE clause of the joined
    query exactly when it satisfies the WHERE clause of the current search. *)
Lemma join_where_search_where d term f :
  f ∈ files d →
  (∃ o, (f, o) ∈ left_join d ∧ join_where term (f, o) = true)
  ↔ search_where d term f = true.
Proof.
  intros Hf. unfold join_where, search_where; simpl.
  rewrite orb_true_iff, existsb_exists. split.
  - intros (o & [_ Ho]%elem_of_left_join & [Hn|Ht]%orb_true_iff); [by left|right].
    destruct o as [t|]; [|done]. destruct Ho as [Hin Hid]. exists t.
    rewrite <-list_elem_of_In. split; [done|]. by rewrite bool_decide_true.
  - intros [Hn|(t & Hin%list_elem_of_In & [Hid%bool_decide_eq_true Ht]%andb_true_iff)].
    + destruct (filter (λ r, ft_file_id r = f_id f) (file_tags d)) as [|t ts] eqn:Hrows.
      * exists None. rewrite elem_of_left_join, Hn. done.
      * assert (t ∈ filter (λ r, ft_file_id r = f_id f) (file_tags d)) as Hin
          by (rewrite Hrows; by left).
        apply list_elem_of_filter in Hin as [Hid Hin].
        exists (Some t). rewrite elem_of_left_join, Hn. done.
    + exists (Some t). rewrite elem_of_left_join, Ht, orb_true_r. done.
Qed.

Lemma joined_files d term f :
  f ∈ fst <$> merge_sort newer_joined (filter (λ r, join_where term r) (left_join d))
  ↔ f ∈ files d ∧ search_where d term f = true.
Proof.
  rewrite merge_sort_Permutation, list_elem_of_fmap. split.
  - intros ([g o] & -> & [Hw Hin]%list_elem_of_filter). simpl.
    apply Is_true_true in Hw. split; [by apply elem_of_left_join in Hin as [? _]|].
    apply join_where_search_where; [by apply elem_of_left_join in Hin as [? _]|eauto].
  - intros [Hf (o & Hin & Hw)%join_where_search_where]; [|done].
    exists (f, o). split; [done|]. apply list_elem_of_filter. split; [|done].
    by apply Is_true_true.
Qed.

Lemma NoDup_files d : NoDup (f_id <$> files d) → NoDup (files d).
Proof. apply NoDup_fmap_1. Qed.

Lemma same_id_same_file d f g :
  NoDup (f_id <$> files d) → f ∈ files d → g ∈ files d → f_id f = f_id g → f = g.
Proof.
  intros Hnd Hf Hg Hid.
  induction (files d) as [|h l IH]; [by apply elem_of_nil in Hf|].
  rewrite fmap_cons in Hnd. apply NoDup_cons in Hnd as [Hh Hnd].
  apply elem_of_cons in Hf as [->|Hf]; apply elem_of_cons in Hg as [->|Hg].
  - done.
  - exfalso. apply Hh. rewrite Hid. apply list_elem_of_fmap. eauto.
  - exfalso. apply Hh. rewrite <-Hid. apply list_elem_of_fmap. eauto.
  - by apply IH.
Qed.

(** X11: the earlier search and the current one list the same files: the earlier
    one lists at most 50 files of the database, each once, each satisfying
    the WHERE clause of the current one; and when at most 50 files satisfy
    it, a file is listed by the one exactly when its row is listed by the
    other. *)
Theorem search_v1_same_files (d : DB) (term : string) :
  db_keys d →
  (length (search_v1_sql d term) ≤ 50)%nat
  ∧ NoDup (search_v1_sql d term)
  ∧ (∀ f, f ∈ search_v1_sql d term → f ∈ files d ∧ search_where d term f = true)
  ∧ ((length (filter (λ f, search_where d term f) (files d)) ≤ 50)%nat →
     ∀ f, f ∈ files d →
          (f ∈ search_v1_sql d term ↔ search_select d f ∈ search_sql d term)).
Proof.
  intros [Hpk _]. unfold search_v1_sql.
  set (joined := fst <$> merge_sort newer_joined
                           (filter (λ r, join_where term r) (left_join d))).
  assert (∀ f, f ∈ remove_dups joined ↔ f ∈ files d ∧ search_where d term f = true) as Hel.
  { intros f. rewrite elem_of_remove_dups. apply joined_files. }
  split_and!.
  - rewrite length_take. lia.
  - apply (sublist_NoDup _ (remove_dups joined)); [apply NoDup_remove_dups|apply sublist_take].
  - intros f Hf. apply Hel. eapply elem_of_sublist; [done|apply sublist_take].
  - intros Hlen f Hf.
    assert (remove_dups joined ≡ₚ filter (λ f, search_where d term f) (files d)) as Hperm.
    { apply NoDup_Permutation; [apply NoDup_remove_dups| |].
      - apply NoDup_filter, NoDup_files, Hpk.
      - intros g. rewrite Hel, list_elem_of_filter, Is_true_true. tauto. }
    rewrite take_ge by (by rewrite Hperm).
    rewrite Hel. split.
    + intros [_ Hw]. by apply search_sql_all.
    + intros (g & Hg & Hw & Heq)%search_sql_elem. split; [done|].
      assert (f = g) as ->; [|done].
      apply (same_id_same_file d); [done..|]. by injection Heq.
Qed.

Lemma search_v1_same_files_witness :
  (mkFile "f1" "report.pdf" "f1" 2048 1000 ∈ search_v1_sql sample_db (term_of "q3")
   ↔ search_select sample_db (mkFile "f1" "report.pdf" "f1" 2048 1000)
     ∈ search_sql sample_db (term_of "q3")).
Proof.
  destruct (search_v1_same_files sample_db (term_of "q3")) as (_ & _ & _ & H).
  - split; apply (bool_decide_unpack _); by vm_compute.
  - apply H; apply (bool_decide_unpack _); by vm_compute.
Defined.

Lemma telegram_sql_elem d term x :
  x ∈ telegram_sql d term →
  ∃ f, f ∈ files d ∧ search_where d term f = true
       ∧ x = (f_id f, f_filename f, f_size f).
Proof.
  unfold telegram_sql. intros Hx.
  assert (x ∈ remove_dups
            ((λ r : FileRow * option TagRow, (f_id r.1, f_filename r.1, f_size r.1))
               <$> merge_sort newer_joined
                     (filter (λ r, join_where term r) (left_join d)))) as Hin
    by (eapply elem_of_sublist; [done|apply sublist_take]).
  apply elem_of_remove_dups, list_elem_of_fmap in Hin as (r & -> & Hr).
  exists r.1. split_and!; [| |done]; apply (joined_files d term);
    apply list_elem_of_fmap; eauto.
Qed.

(** X12: the reply of the webhook: for a text message from a chat, when the
    search returns and the send gets an answer, exactly one message goes out,
    to the chat of the update, about the trimmed text; it lists at most 10
    files, each a file of the index that satisfies the WHERE clause of the
    search endpoint for that text, each with a link to the delivery path of
    its id that carries the team secret as token.  The index, the bucket
    and the cache are as before. *)
Theorem telegram_reply
    (p : Platform) (c : Context) (w : World)
    (u : json) (m ch cid : option json) (s : string) (st : Z) :
  req_json c = Return u →
  prop (Some u) "message" = Return m →
  prop m "text" = Return (Some (JStr s)) →
  Text.nonempty s = true →
  prop m "chat" = Return ch →
  prop ch "id" = Return cid →
  db_rejects p 0 = false →
  fetch_outcome p = Resolves st →
  let w' := (serve (telegram p c) w).2 in
  db w' = db w ∧ bucket w' = bucket w ∧ cache w' = cache w
  ∧ ∃ msg,
      outbox w' = outbox w ++ [msg]
      ∧ m_bot msg = TG_BOT_TOKEN (env c)
      ∧ m_chat_id msg = cid
      ∧ m_query msg = Text.trim s
      ∧ (length (m_entries msg) ≤ 10)%nat
      ∧ ∀ e, e ∈ m_entries msg →
             ∃ f, f ∈ files (db w)
                  ∧ search_where (db w) (term_of (Text.trim s)) f = true
                  ∧ e_filename e = f_filename f
                  ∧ e_size e = f_size f
                  ∧ e_link e = req_origin c +:+ "/api/file/" +:+ f_id f
                               +:+ "?token=" +:+ TEAM_PASSWORD (env c).
Proof.
  intros Hu Hm Ht Hs Hch Hid Hdb Hfetch w'. subst w'.
  rewrite (telegram_text p c w u m s ch cid) by done. rewrite Hdb, Hfetch. simpl.
  split_and!; [done..|]. eexists. split; [done|]. simpl. split_and!; [done..| |].
  - rewrite length_fmap. unfold telegram_sql. rewrite length_take. lia.
  - intros e (x & -> & (f & Hf & Hw & ->)%telegram_sql_elem)%list_elem_of_fmap.
    exists f. done.
Qed.

Lemma telegram_reply_witness :
  let w' := (serve (telegram calm tg_request) sample_world).2 in
  ∃ msg, outbox w' = [msg]
         ∧ m_chat_id msg = Some (JNum "42")
         ∧ m_query msg = "report".
Proof.
  intros w'.
  destruct (telegram_reply calm tg_request sample_world tg_update
              (Some (JObj [("chat", JObj [("id", JNum "42")]); ("text", JStr "report")]))
              (Some (JObj [("id", JNum "42")])) (Some (JNum "42")) "report" 200)
    as (_ & _ & _ & msg & H1 & _ & H2 & H3 & _); try reflexivity.
  exists msg. split_and!; [exact H1|exact H2|exact H3].
Defined.

(** ** Who can write *)

Lemma telegram_reads_only p c w :
  db (serve (telegram p c) w).2 = db w ∧ bucket (serve (telegram p c) w).2 = bucket w.
Proof.
  unfold serve, telegram, try_catch, bind, lift, db_read, fetch_sendMessage, ret.
  repeat (case_match; simplify_eq/=); done.
Qed.

Lemma get_file_reads_only p c w :
  db (serve (get_file p c) w).2 = db w ∧ bucket (serve (get_file p c) w).2 = bucket w.
Proof.
  unfold serve, get_file, bind, cache_match, db_read, bucket_get, cache_put, ret.
  repeat (case_match; simplify_eq/=); done.
Qed.

Lemma search_reads_only p c w : (serve (search p c) w).2 = w.
Proof.
  unfold serve, search, bind, db_read, ret.
  repeat (case_match; simplify_eq/=); done.
Qed.

Lemma below_ADMIN c : checkAuth c ≠ ADMIN → below (checkAuth c) ADMIN = true.
Proof. by destruct (checkAuth c). Qed.

(** X13: only a request whose cookie is the admin secret changes the index or the
    bucket: the search, the delivery path and the webhook never do, whoever
    calls, and the upload, the tag-replace and the delete leave the whole
    world as it was for every other caller. *)
Theorem only_admin_writes (p : Platform) (c : Context) (w : World) :
  ((serve (search p c) w).2 = w
   ∧ (db (serve (get_file p c) w).2 = db w ∧ bucket (serve (get_file p c) w).2 = bucket w)
   ∧ (db (serve (telegram p c) w).2 = db w ∧ bucket (serve (telegram p c) w).2 = bucket w))
  ∧ (cookie c ≠ Some (ADMIN_PASSWORD (env c)) →
     (serve (upload p c) w).2 = w
     ∧ (serve (update_tags p c) w).2 = w
     ∧ (serve (delete_file p c) w).2 = w).
Proof.
  split.
  - split_and!;
      first [apply search_reads_only|apply get_file_reads_only|apply telegram_reads_only].
  - intros Hc. assert (below (checkAuth c) ADMIN = true) as Hb.
    { apply below_ADMIN. by rewrite checkAuth_ADMIN. }
    by rewrite upload_denied, update_tags_denied, delete_file_denied.
Qed.

Lemma only_admin_writes_witness :
  let c := mkContext sample_env (Some "team-secret") "https://docs.example/api/upload"
             "https://docs.example" ∅ "f1" (Return foo_body) (req_form upload_request) in
  (serve (upload calm c) sample_world).2 = sample_world
  ∧ (serve (update_tags calm c) sample_world).2 = sample_world
  ∧ (serve (delete_file calm c) sample_world).2 = sample_world.
Proof.
  intros c. apply (only_admin_writes calm c sample_world). by vm_compute.
Defined.

(** ** The normal form of stored tags *)

Lemma inserted_elem i ts rows r :
  r ∈ inserted i ts rows → r ∈ rows ∨ ∃ t, t ∈ ts ∧ r = mkTag i t.
Proof.
  destruct (inserted_spec i ts rows) as (new & -> & _ & _ & Hel).
  rewrite elem_of_app, list_elem_of_fmap. intros [?|(t & -> & Ht)]; [by left|right].
  exists t. split; [|done]. by apply Hel.
Qed.

Lemma upload_file_tags p c w r :
  r ∈ file_tags (db (serve (upload p c) w).2) →
  r ∈ file_tags (db w)
  ∨ ∃ s tok, req_form c !! "tags" = Some (FText s)
             ∧ tok ∈ Text.split_spaces s ∧ Text.nonempty tok = true
             ∧ ft_tag r = Text.toLowerCase tok.
Proof.
  unfold serve, upload.
  destruct (below (checkAuth c) ADMIN); [by left|].
  destruct (req_form c !! "file") as [[s|file]|]; [by left| |by left].
  unfold bind, bucket_put, lift, db_batch.
  destruct (bucket_rejects p 0); [by left|].
  destruct (req_form c !! "tags") as [[s|]|] eqn:Htags; simpl; [|by left..].
  destruct (db_rejects p 0); [by left|]. simpl.
  destruct (has_file (db w) (randomUUID p)) eqn:Hhas; [by left|].
  rewrite (list_fmap_compose Text.toLowerCase (InsertOrIgnoreTag (randomUUID p))).
  rewrite exec_all_inserts.
  - simpl. intros [?|(t & (tok & -> & [Hne Htok]%list_elem_of_filter)%list_elem_of_fmap & ->)]%inserted_elem;
      [by left|right].
    exists s, tok. split_and!; [done|done|by apply Is_true_true|done].
  - apply has_file_true. simpl. rewrite fmap_app, elem_of_app. right.
    by apply list_elem_of_singleton.
Qed.

Lemma update_tags_file_tags p c w r :
  r ∈ file_tags (db (serve (update_tags p c) w).2) →
  r ∈ file_tags (db w) ∨ ∃ items ts, sanitize items = Return ts ∧ ft_tag r ∈ ts.
Proof.
  unfold serve, update_tags.
  destruct (below (checkAuth c) ADMIN); [by left|].
  unfold try_catch, bind, lift, db_read, db_batch.
  destruct (req_json c) as [body|e]; [|by left].
  destruct (prop (Some body) "tags") as [[[| | | |items|]|]|e]; try by left.
  destruct (db_rejects p 0); [by left|].
  destruct (select_file _ _) as [f|] eqn:Hsel; [|by left].
  destruct (sanitize items) as [ts|e] eqn:Hts; [|by left].
  destruct (db_rejects p 1); [by left|].
  rewrite exec_all_replace by (by eapply select_file_has_file). simpl.
  intros [[_ ?]%list_elem_of_filter|(t & Ht & ->)]%inserted_elem; [by left|right]. eauto.
Qed.

Lemma delete_file_file_tags p c w r :
  r ∈ file_tags (db (serve (delete_file p c) w).2) → r ∈ file_tags (db w).
Proof.
  destruct (delete_file_db p c w) as [->|[->| ->]]; simpl; [done| |].
  - by intros [_ ?]%list_elem_of_filter.
  - destruct (foreign_keys (db w)).
    + by intros [_ [_ ?]%list_elem_of_filter]%list_elem_of_filter.
    + by intros [_ ?]%list_elem_of_filter.
Qed.

Lemma step_tags_normal w w' : step w w' → tags_normal (db w) → tags_normal (db w').
Proof.
  intros Hstep Hn r Hr. destruct Hstep as [p c w|p c w|p c w].
  - apply upload_file_tags in Hr as [?|(s & tok & _ & Htok & Hne & ->)]; [by apply Hn|].
    apply normal_tag_token; [done|].
    pose proof (split_spaces_from_no_space false s) as Hall.
    rewrite Forall_forall in Hall. by apply Hall.
  - apply update_tags_file_tags in Hr as [?|(items & ts & Hts & Ht)]; [by apply Hn|].
    apply (elem_of_sanitize _ _ _ Hts) in Ht as (Hne & v & _ & Hv).
    by eapply normal_tag_sanitized.
  - apply delete_file_file_tags in Hr. by apply Hn.
Qed.

(** X14: every tag the index ever holds is in normal form: in every world reached
    from empty tables by uploads, tag-replaces and deletes, each stored tag
    is non-empty, has no white space at either end, and has no capital
    letter. *)
Theorem stored_tags_normal (w : World) : reachable w → tags_normal (db w).
Proof.
  intros (w0 & [_ Ht] & Hsteps).
  assert (tags_normal (db w0)) as Hn0.
  { intros r. rewrite Ht. by intros ?%elem_of_nil. }
  clear Ht. induction Hsteps; eauto using step_tags_normal.
Qed.

Lemma stored_tags_normal_witness :
  tags_normal (db (serve (upload calm upload_request) empty_world).2).
Proof.
  apply stored_tags_normal. exists empty_world.
  split; [done|]. apply rtc_once, step_upload.
Defined.

(** ** Tag-replace: the answer and the store *)

Global Instance JStr_inj : Inj (=) (=) JStr.
Proof. intros s1 s2. congruence. Qed.

Lemma tags_updated_inj ts ts' : tags_updated ts = tags_updated ts' → ts = ts'.
Proof. unfold tags_updated, c_json. intros [= H]. by apply (inj (fmap JStr)) in H. Qed.

(** X21: what a tag-replace that answers 200 has done.  The body had an
    array of tags that all convert to text; the response carries their
    normalized list, whose members are the non-empty lowercased trimmed texts
    of the input tags; the tags stored for the file are that list without
    repetition (a sublist with the same members); the tags of every other
    file, the file rows, the bucket and the cache are as they were. *)
Theorem update_tags_stores_returned (p : Platform) (c : Context) (w : World) :
  let r := serve (update_tags p c) w in
  let i := req_param_id c in
  let stored := tags_of (db r.2) i in
  status r.1 = 200 →
  ∃ body items ts,
    req_json c = Return body
    ∧ prop (Some body) "tags" = Return (Some (JArr items))
    ∧ sanitize items = Return ts
    ∧ r.1 = tags_updated ts
    ∧ (∀ t, t ∈ ts ↔ t ≠ "" ∧ ∃ v, v ∈ items ∧ tag_text v = Return t)
    ∧ NoDup stored
    ∧ stored `sublist_of` ts
    ∧ (∀ t, t ∈ stored ↔ t ∈ ts)
    ∧ (∀ j, j ≠ i → tags_of (db r.2) j = tags_of (db w) j)
    ∧ files (db r.2) = files (db w)
    ∧ bucket r.2 = bucket w
    ∧ cache r.2 = cache w.
Proof.
  intros r i stored H200. subst r i stored.
  destruct (update_tags_200 p c w H200) as (body & items & ts & _ & Hb & Hp & _ & Hts & ->).
  exists body, items, ts. cbn [fst snd]. split_and!; try done;
    first [ intros t; by apply elem_of_sanitize
          | intros j Hj; by apply tags_of_replaced_other
          | apply tags_of_replaced ].
Qed.

Lemma update_tags_stores_returned_witness :
  let c := request sample_env (Some "admin-secret") "f1" ∅ (Return foo_body) in
  let r := serve (update_tags calm c) sample_world in
  ∃ body items ts,
    req_json c = Return body
    ∧ prop (Some body) "tags" = Return (Some (JArr items))
    ∧ sanitize items = Return ts
    ∧ r.1 = tags_updated ts
    ∧ (∀ t, t ∈ ts ↔ t ≠ "" ∧ ∃ v, v ∈ items ∧ tag_text v = Return t)
    ∧ NoDup (tags_of (db r.2) "f1")
    ∧ tags_of (db r.2) "f1" `sublist_of` ts
    ∧ (∀ t, t ∈ tags_of (db r.2) "f1" ↔ t ∈ ts)
    ∧ (∀ j, j ≠ "f1" → tags_of (db r.2) j = tags_of sample_db j)
    ∧ files (db r.2) = files sample_db
    ∧ bucket r.2 = sample_bucket
    ∧ cache r.2 = ∅.
Proof.
  intros c r. apply (update_tags_stores_returned calm c sample_world). reflexivity.
Defined.

(** ** Tag-replace, then search *)

Lemma contains_like_self t : contains_like t t.
Proof. apply contains_contains_like. exists "", "". by rewrite append_nil_r. Qed.

(** X16: after a tag-replace that answered 200 with a list of tags, a search
    for any tag of that list finds the file: the file row exists, and its
    row is in the answer of the search, unless that answer already has 50
    rows, each at least as recent as the file. *)
Theorem update_tags_then_search
    (p p' : Platform) (c c' : Context) (w : World) (ts : list string) :
  let first := serve (update_tags p c) w in
  first.1 = tags_updated ts →
  query_q c' ∈ ts →
  below (checkAuth c') TEAM = false →
  db_rejects p' 0 = false →
  ∃ f rows,
    select_file (db first.2) (req_param_id c) = Some f
    ∧ serve (search p' c') first.2 = (c_json (JArr (format_row <$> rows)) 200, first.2)
    ∧ (search_select (db first.2) f ∈ rows
       ∨ (length rows = 50%nat ∧ ∀ r, r ∈ rows → f_created_at f ≤ s_created_at r)).
Proof.
  intros first Hans Hin Hgate H0'. subst first.
  assert (status (serve (update_tags p c) w).1 = 200) as H200 by (by rewrite Hans).
  destruct (update_tags_200 p c w H200) as (body & items & ts' & _ & _ & _ & Hf & _ & Heq).
  rewrite Heq in Hans |- *. cbn [fst snd] in *.
  apply tags_updated_inj in Hans as ->.
  destruct (select_file (db w) (req_param_id c)) as [f|] eqn:Hsel;
    [|by apply select_file_None in Hsel].
  pose proof (select_file_Some _ _ _ Hsel) as [Hfiles Hid].
  exists f. eexists. split_and!; [exact Hsel|by apply search_granted|].
  apply search_sql_complete; [done|].
  apply search_where_spec. right. exists (query_q c'). split; [|apply contains_like_self].
  simpl. rewrite Hid. by apply tags_of_replaced.
Qed.

Lemma update_tags_then_search_witness :
  let c := request sample_env (Some "admin-secret") "f1" ∅ (Return foo_body) in
  let c' := request sample_env (Some "team-secret") "" {[ "q" := "foo" ]} (Throw SyntaxError) in
  let first := serve (update_tags calm c) sample_world in
  ∃ f rows,
    select_file (db first.2) "f1" = Some f
    ∧ serve (search calm c') first.2 = (c_json (JArr (format_row <$> rows)) 200, first.2)
    ∧ (search_select (db first.2) f ∈ rows
       ∨ (length rows = 50%nat ∧ ∀ r, r ∈ rows → f_created_at f ≤ s_created_at r)).
Proof.
  intros c c' first.
  apply (update_tags_then_search calm calm c c' sample_world ["foo"; "foo"]);
    try reflexivity.
  apply (bool_decide_unpack _). by vm_compute.
Defined.

(** ** The edge cache *)

(** The five routes that do not deliver files leave the cache alone. *)
Lemma upload_cache p c w : cache (serve (upload p c) w).2 = cache w.
Proof.
  unfold serve, upload.
  destruct (below (checkAuth c) ADMIN); [done|].
  destruct (req_form c !! "file") as [[s|file]|]; [done| |done].
  unfold bind, bucket_put, lift, db_batch.
  destruct (bucket_rejects p 0); [done|].
  destruct (upload_tags _) as [tags|e]; [|done].
  cbn [db bucket cache outbox].
  destruct (db_rejects p 0); [done|].
  by destruct (exec_all _ _).
Qed.

Lemma update_tags_cache p c w : cache (serve (update_tags p c) w).2 = cache w.
Proof.
  unfold serve, update_tags.
  destruct (below (checkAuth c) ADMIN); [done|].
  unfold try_catch, bind, lift, db_read, db_batch.
  destruct (req_json c) as [body|e]; [|done].
  destruct (prop (Some body) "tags") as [[[]|]|e]; try done.
  destruct (db_rejects p 0); [done|].
  destruct (select_file _ _) as [f|]; [|done].
  destruct (sanitize _) as [ts|e]; [|done].
  destruct (db_rejects p 1); [done|].
  by destruct (exec_all _ _).
Qed.

Lemma delete_file_cache p c w : cache (serve (delete_file p c) w).2 = cache w.
Proof.
  unfold serve, delete_file.
  destruct (below (checkAuth c) ADMIN); [done|].
  unfold bind, db_read, bucket_delete, db_batch.
  destruct (db_rejects p 0); [done|].
  destruct (select_file _ _) as [f|]; [|done].
  destruct (bucket_rejects p 0); [done|].
  cbn [db bucket cache outbox].
  destruct (db_rejects p 1); [done|].
  destruct (exec_all _ _); [|done].
  cbn [db bucket cache outbox].
  destruct (db_rejects p 2); [done|].
  by destruct (exec_all _ _).
Qed.

Lemma telegram_cache p c w : cache (serve (telegram p c) w).2 = cache w.
Proof.
  unfold serve, telegram, try_catch, bind, lift, db_read, fetch_sendMessage.
  destruct (req_json c) as [update|e]; [|done].
  destruct (prop (Some update) "message") as [message|e]; [|done].
  destruct (negb (truthy message)); [done|].
  destruct (prop message "text") as [message_text|e]; [|done].
  destruct (negb (truthy message_text)); [done|].
  destruct (prop message "chat") as [chat|e]; [|done].
  destruct (prop chat "id") as [chatId|e]; [|done].
  destruct (trim_method message_text) as [text|e]; [|done].
  destruct (db_rejects p 0); [done|].
  by destruct (fetch_outcome p).
Qed.

(** The delivery route writes the cache only at the URL of its own request,
    and only after it found nothing there: an entry that is in the cache
    stays as it is. *)
Lemma get_file_cache_kept p c w url r :
  cache w !! url = Some r → cache (serve (get_file p c) w).2 !! url = Some r.
Proof.
  intros Hr. unfold serve, get_file.
  destruct (negb (isAuth c)); [done|].
  unfold bind, cache_match, db_read, bucket_get, cache_put.
  destruct (cache w !! req_url c) as [r'|] eqn:Hc; [done|].
  destruct (db_rejects p 0); [done|].
  destruct (select_file _ _) as [f|]; [|done].
  destruct (bucket_rejects p 0); [done|].
  destruct (bucket w !! f_r2_key f) as [o|]; [|done].
  destruct (cache_keeps p); [|done].
  unfold ret. cbn [snd cache]. rewrite lookup_insert_ne; [done|]. congruence.
Qed.

Lemma keeping_cache url w w' r :
  rtc (keeping url) w w' → cache w !! url = Some r → cache w' !! url = Some r.
Proof.
  induction 1 as [|w1 w2 w3 Hstep _ IH]; [done|].
  intros Hr. apply IH. destruct Hstep as [w1 w2 Hs|key w1 Hkey].
  - destruct Hs as [p c w|p c w|p c w|p c w|p c w|p c w].
    + by rewrite search_reads_only.
    + by apply get_file_cache_kept.
    + by rewrite upload_cache.
    + by rewrite update_tags_cache.
    + by rewrite delete_file_cache.
    + by rewrite telegram_cache.
  - simpl. by rewrite lookup_delete_ne.
Qed.

(** X17: what the delivery path serves once, it serves again while the cache
    holds the entry.  After an authorized request that missed the cache and
    delivered a file on a platform whose cache keeps what is put, and after
    any number of further requests to any route and of losses of entries of
    other URLs, every authorized request for the same URL gets the same
    response without a change to the world, whatever has become of the
    index and the bucket and whatever the stores do.  (Nothing is said of a
    request made after the cache has let go of the entry of this URL.) *)
Theorem get_file_served_again
    (p p' : Platform) (c c' : Context) (w w' : World) (f : FileRow) (o : R2Object) :
  isAuth c = true →
  cache w !! req_url c = None →
  db_rejects p 0 = false →
  bucket_rejects p 0 = false →
  select_file (db w) (req_param_id c) = Some f →
  bucket w !! f_r2_key f = Some o →
  cache_keeps p = true →
  isAuth c' = true →
  req_url c' = req_url c →
  let first := serve (get_file p c) w in
  rtc (keeping (req_url c)) first.2 w' →
  first.1 = file_response f o
  ∧ serve (get_file p' c') w' = (first.1, w').
Proof.
  intros Hauth Hmiss Hdb Hb Hsel Hobj Hkeep Hauth' Hurl first Hlater. subst first.
  rewrite get_file_uncached in * by done. rewrite Hsel, Hobj, Hkeep in *.
  cbn [fst snd] in *. split; [done|]. apply get_file_cached; [done|].
  rewrite Hurl. eapply keeping_cache; [exact Hlater|].
  simpl. by rewrite lookup_insert_eq.
Qed.

Lemma get_file_served_again_witness :
  let reader := request sample_env (Some "team-secret") "f1" ∅ (Throw SyntaxError) in
  let admin := request sample_env (Some "admin-secret") "f1" ∅ (Throw SyntaxError) in
  let first := serve (get_file calm reader) sample_world in
  let w' := dropped "https://docs.example/api/file/f2"
              (serve (delete_file calm admin) first.2).2 in
  select_file (db w') "f1" = None
  ∧ serve (get_file database_down reader) w' = (first.1, w').
Proof.
  intros reader admin first w'. split; [reflexivity|].
  refine (proj2 (get_file_served_again calm database_down reader reader sample_world w'
                   (mkFile "f1" "report.pdf" "f1" 2048 1000)
                   (mkObject "%PDF-1.7" (Some "application/pdf") "etag-1")
                   _ _ _ _ _ _ _ _ _ _)); try reflexivity.
  eapply rtc_l; [apply keeping_served, (served_delete_file calm admin)|].
  apply rtc_once, keeping_dropped. done.
Defined.

(** ** The tag editor of the page *)

Section editor.
Implicit Types (t rest : string) (ts : list string).

Lemma split_spaces_from_token b t :
  has_space t = false → Text.nonempty t = true →
  Text.split_spaces_from b t = [t].
Proof.
  revert b. induction t as [|ch t IH]; intros b; [done|]. simpl.
  intros [Hc Ht]%orb_false_iff _. rewrite Hc.
  destruct t as [|d t]; [done|]. by rewrite (IH false).
Qed.

Lemma split_spaces_from_token_then b t rest :
  has_space t = false → Text.nonempty t = true →
  Text.split_spaces_from b (t +:+ " " +:+ rest) = t :: Text.split_spaces_from true rest.
Proof.
  revert b. induction t as [|ch t IH]; intros b; [done|].
  rewrite append_cons. cbn [Text.split_spaces_from has_space].
  intros [Hc Ht]%orb_false_iff _. rewrite Hc.
  destruct t as [|d t]; [done|]. by rewrite (IH false).
Qed.

Lemma split_spaces_from_join b ts :
  ts ≠ [] →
  Forall (λ t, has_space t = false ∧ Text.nonempty t = true) ts →
  Text.split_spaces_from b (Text.join " " ts) = ts.
Proof.
  intros Hne Hall. revert b. induction Hall as [|t ts [Hs Ht] Hall IH]; intros b; [done|].
  destruct ts as [|t' ts].
  - by apply split_spaces_from_token.
  - cbn [Text.join]. rewrite split_spaces_from_token_then by done.
    f_equal. by apply IH.
Qed.
End editor.

(** Joining with spaces and splitting at white space gives the list back. *)
Lemma saveTags_openEditModal tags :
  Forall (λ t, has_space t = false ∧ Text.nonempty t = true) tags →
  saveTags_array (openEditModal tags) = tags.
Proof.
  intros Hall. unfold saveTags_array, openEditModal, Text.split_spaces.
  destruct tags as [|t ts]; [done|].
  rewrite split_spaces_from_join by done.
  apply filter_all. intros x Hx. rewrite Forall_forall in Hall.
  apply Is_true_true. by apply Hall.
Qed.

(** X18: opening the tag editor on a list of tags and saving without a change
    sends back that list, provided no tag is empty or has white space in
    it. *)
Theorem editor_round_trip (tags : list string) :
  Forall (λ t, has_space t = false ∧ Text.nonempty t = true) tags →
  saveTags_array (openEditModal tags) = tags.
Proof. apply saveTags_openEditModal. Qed.

Lemma editor_round_trip_witness :
  saveTags_array (openEditModal ["finance"; "q3"]) = ["finance"; "q3"].
Proof.
  apply editor_round_trip. repeat constructor.
Defined.

Lemma sanitize_normal ts :
  Forall normal_tag ts → sanitize (JStr <$> ts) = Return ts.
Proof.
  intros Hall. unfold sanitize.
  assert (map_throwing tag_text (JStr <$> ts) = Return ts) as ->.
  { apply map_throwing_Return, Forall2_fmap_l, Forall_Forall2_diag.
    eapply Forall_impl; [exact Hall|]. intros t (_ & Htrim & Hlow).
    unfold tag_text; simpl. by rewrite Htrim, Hlow. }
  f_equal. apply filter_all. intros t Ht. rewrite Forall_forall in Hall.
  apply Is_true_true. by apply Hall.
Qed.

Lemma inserted_NoDup i ts rows :
  NoDup ts → (∀ t, t ∈ ts → mkTag i t ∉ rows) →
  inserted i ts rows = rows ++ (mkTag i <$> ts).
Proof.
  revert rows. induction ts as [|t ts IH]; intros rows Hnd Hfresh; simpl.
  - by rewrite app_nil_r.
  - apply NoDup_cons in Hnd as [Ht Hnd].
    rewrite bool_decide_false by (apply Hfresh; by left).
    rewrite IH; [by rewrite <-app_assoc|done|].
    intros t' Ht'. rewrite not_elem_of_app. split; [apply Hfresh; by right|].
    intros [=]%list_elem_of_singleton. congruence.
Qed.

Lemma tag_of_fresh_rows i (l : list string) : (ft_tag ∘ mkTag i) <$> l = l.
Proof. induction l; [done|]. simpl. by f_equal. Qed.

Lemma tags_of_NoDup d i : NoDup (file_tags d) → NoDup (tags_of d i).
Proof.
  intros Hnd. unfold tags_of. apply NoDup_fmap_2_strong; [|by apply NoDup_filter].
  intros [i1 t1] [i2 t2] [H1 _]%list_elem_of_filter [H2 _]%list_elem_of_filter.
  simpl in *. congruence.
Qed.

(** X19: saving the tag editor unchanged changes no file's tags.  The page
    opens the editor on the tags that a row of a search result lists (the
    tag text of the row split at commas), in whatever order the row lists
    them, and an admin saves without a change for the id of that row.  If the
    file's stored tags are in normal form and have neither white space nor a
    comma in them, the tag-replace answers 200 with the tags the editor
    showed, and every file has the tags it had before. *)
Theorem editor_save_unchanged
    (p : Platform) (c : Context) (w : World)
    (term : string) (r : SearchRow) (shown : list string) :
  r ∈ search_sql (db w) term →
  shown ≡ₚ tags_of_row r →
  req_param_id c = s_id r →
  req_json c = Return (saveTags_body (openEditModal shown)) →
  below (checkAuth c) ADMIN = false →
  db_rejects p 0 = false → db_rejects p 1 = false →
  db_keys (db w) →
  Forall (λ t, normal_tag t ∧ has_space t = false ∧ Text.mem "," t = false)
         (tags_of (db w) (s_id r)) →
  let answer := serve (update_tags p c) w in
  answer.1 = tags_updated shown
  ∧ files (db answer.2) = files (db w)
  ∧ ∀ j, tags_of (db answer.2) j ≡ₚ tags_of (db w) j.
Proof.
  intros (f & Hf & _ & ->)%search_sql_elem Hshown Hid Hbody Ha H0 H1 [_ Hpk] Hall answer.
  subst answer. cbn [s_id search_select] in Hid, Hall.
  rewrite tags_of_row_select in Hshown.
  2:{ eapply Forall_impl; [exact Hall|]. intros t ((Hne & _) & _ & Hcomma).
      unfold plain_tag. by rewrite Hne, Hcomma. }
  rewrite <-Hshown in Hall.
  assert (saveTags_array (openEditModal shown) = shown) as Hrt.
  { apply saveTags_openEditModal. eapply Forall_impl; [exact Hall|].
    by intros t [(Hne & _ & _) [Hs _]]. }
  assert (sanitize (JStr <$> shown) = Return shown) as Hsan.
  { apply sanitize_normal. eapply Forall_impl; [exact Hall|]. by intros t [? _]. }
  assert (prop (Some (saveTags_body (openEditModal shown))) "tags"
          = Return (Some (JArr (JStr <$> shown)))) as Hprop.
  { unfold saveTags_body. rewrite Hrt. reflexivity. }
  assert (req_param_id c ∈ f_id <$> files (db w)) as Hfile.
  { rewrite Hid. apply list_elem_of_fmap. by exists f. }
  rewrite (update_tags_ok p c w Ha _ (JStr <$> shown) shown Hbody Hprop H0 H1 Hfile Hsan).
  cbn [fst snd]. split_and!; [done|done|]. intros j. simpl.
  destruct (decide (j = req_param_id c)) as [->|Hne];
    [|by rewrite tags_of_replaced_other].
  destruct (tags_of_replaced (db w) (req_param_id c) shown) as (Hnd & _ & Hmem).
  apply NoDup_Permutation; [done|by apply tags_of_NoDup|].
  intros t. by rewrite Hmem, Hshown, Hid.
Qed.

Lemma editor_save_unchanged_witness :
  let r := mkSearchRow "f1" "report.pdf" 2048 1000 (Some "finance,q3") in
  let c := request sample_env (Some "admin-secret") "f1" ∅
             (Return (saveTags_body (openEditModal ["q3"; "finance"]))) in
  let answer := serve (update_tags calm c) sample_world in
  r ∈ search_sql sample_db "%report%"
  ∧ answer.1 = tags_updated ["q3"; "finance"]
  ∧ files (db answer.2) = files sample_db
  ∧ ∀ j, tags_of (db answer.2) j ≡ₚ tags_of sample_db j.
Proof.
  intros r c answer.
  assert (r ∈ search_sql sample_db "%report%") as Hr.
  { apply (bool_decide_unpack _). by vm_compute. }
  split; [exact Hr|].
  apply (editor_save_unchanged calm c sample_world "%report%" r ["q3"; "finance"]);
    try reflexivity.
  - exact Hr.
  - apply Permutation_swap.
  - split; apply (bool_decide_unpack _); by vm_compute.
  - repeat constructor.
Defined.

(** ** Login, session, logout *)

Lemma is_text_true v s : is_text v s = true ↔ v = Some (JStr s).
Proof.
  destruct v as [[]|]; simpl; try (split; [done|by intros [=]]).
  rewrite bool_decide_eq_true. split; [by intros ->|by intros [= ->]].
Qed.

(** The three answers of a login that returns. *)
Lemma handleLogin_inv c r a :
  handleLogin c = Return (r, a) →
  (r = login_ok "admin" ∧ a = Some (auth_cookie (ADMIN_PASSWORD (env c))))
  ∨ (r = login_ok "team" ∧ a = Some (auth_cookie (TEAM_PASSWORD (env c)))
     ∧ TEAM_PASSWORD (env c) ≠ ADMIN_PASSWORD (env c))
  ∨ (r = login_refused ∧ a = None).
Proof.
  unfold handleLogin. intros Hl.
  destruct (req_json c) as [body|e]; [|done].
  destruct (prop (Some body) "password") as [password|e]; [|done].
  destruct (is_text password (ADMIN_PASSWORD (env c))) eqn:Ha.
  { injection Hl as <- <-. by left. }
  destruct (is_text password (TEAM_PASSWORD (env c))) eqn:Ht.
  { injection Hl as <- <-. right; left. split_and!; [done..|].
    intros Heq. apply is_text_true in Ht. rewrite Heq in Ht.
    apply is_text_true in Ht. congruence. }
  injection Hl as <- <-. by right; right.
Qed.

(** X3: a session: with the cookie a successful login issued, the search is
    answered 200; after the logout route has cleared it, the same search is
    answered 401. *)
Theorem session_login_logout
    (p : Platform) (c_login c : Context) (w : World)
    (r : Response) (a : option CookieAction) (jar : option string) :
  handleLogin c_login = Return (r, a) →
  status r = 200 →
  env c = env c_login →
  db_rejects p 0 = false →
  let jar1 := jar_after jar a in
  let jar2 := jar_after jar1 (serve_cookie (logout c)).2 in
  status (serve (search p (with_cookie c jar1)) w).1 = 200
  ∧ serve (search p (with_cookie c jar2)) w = (unauthorized_json, w).
Proof.
  intros Hl Hst He Hdb jar1 jar2. subst jar1 jar2. split.
  - rewrite search_granted; [done| |done].
    apply handleLogin_inv in Hl as [[-> ->]|[(-> & -> & Hne)|[-> ->]]]; [| |done].
    + assert (checkAuth (with_cookie c (jar_after jar (Some (auth_cookie (ADMIN_PASSWORD (env c_login))))))
              = ADMIN) as ->; [|done].
      apply checkAuth_ADMIN. simpl. by rewrite He.
    + assert (checkAuth (with_cookie c (jar_after jar (Some (auth_cookie (TEAM_PASSWORD (env c_login))))))
              = TEAM) as ->; [|done].
      apply checkAuth_TEAM. simpl. by rewrite He.
  - apply search_denied.
    assert (checkAuth (with_cookie c (jar_after (jar_after jar a) (serve_cookie (logout c)).2))
            = GUEST) as ->; [|done].
    by apply checkAuth_absent.
Qed.

Lemma session_login_logout_witness :
  let c_login :=
    request sample_env None "" ∅ (Return (JObj [("password", JStr "team-secret")])) in
  let c := request sample_env None "" ∅ (Throw SyntaxError) in
  let jar1 := jar_after None (serve_cookie (handleLogin c_login)).2 in
  let jar2 := jar_after jar1 (serve_cookie (logout c)).2 in
  status (serve (search calm (with_cookie c jar1)) sample_world).1 = 200
  ∧ serve (search calm (with_cookie c jar2)) sample_world = (unauthorized_json, sample_world).
Proof.
  intros c_login c jar1 jar2.
  apply (session_login_logout calm c_login c sample_world (login_ok "team")
           (Some (auth_cookie "team-secret")) None); reflexivity.
Defined.

(** ** The file name in the response header *)

Lemma percent_one_byte c rest :
  all_chars uri_safe (Text.percent (N_of_ascii c) rest) = all_chars uri_safe rest.
Proof. by destruct c as [[] [] [] [] [] [] [] []]. Qed.

Lemma percent_two_bytes c rest :
  all_chars uri_safe
    (Text.percent (192 + N_of_ascii c / 64)
       (Text.percent (128 + N_of_ascii c mod 64) rest))
  = all_chars uri_safe rest.
Proof. by destruct c as [[] [] [] [] [] [] [] []]. Qed.

Lemma encodeURIComponent_safe s : all_chars uri_safe (Text.encodeURIComponent s) = true.
Proof.
  induction s as [|c s IH]; [done|]. simpl.
  destruct (Text.uri_unreserved c) eqn:Hc.
  - simpl. unfold uri_safe at 1. by rewrite Hc.
  - destruct (N_of_ascii c <? 128)%N.
    + by rewrite percent_one_byte.
    + by rewrite percent_two_bytes.
Qed.

Lemma all_chars_mem P q s : all_chars P s = true → P q = false → Text.mem q s = false.
Proof.
  intros Hall Hq. induction s as [|c s IH]; [done|]. simpl in *.
  apply andb_true_iff in Hall as [Hc Hs]. rewrite IH by done.
  rewrite orb_false_r. apply Ascii.eqb_neq. intros ->. congruence.
Qed.

(** X20: the file name cannot break out of the header: in every delivered
    response the Content-Disposition value is [inline; filename=] followed by
    a quoted name that consists of letters, digits, the marks
    [- _ . ! ~ * ' ( )] and percent escapes only, so it has no double quote,
    no semicolon, no backslash and no line break, whatever the stored file
    name is. *)
Theorem content_disposition_safe (f : FileRow) (o : R2Object) :
  ∃ name,
    ("Content-Disposition", "inline; filename=" +:+ Text.dquote +:+ name +:+ Text.dquote)
      ∈ headers (file_response f o)
    ∧ name = Text.encodeURIComponent (f_filename f)
    ∧ all_chars uri_safe name = true
    ∧ Text.mem (ascii_of_N 34) name = false
    ∧ Text.mem ";" name = false
    ∧ Text.mem (ascii_of_N 92) name = false
    ∧ Text.mem (ascii_of_N 13) name = false
    ∧ Text.mem (ascii_of_N 10) name = false.
Proof.
  exists (Text.encodeURIComponent (f_filename f)).
  pose proof (encodeURIComponent_safe (f_filename f)) as Hsafe.
  split_and!; [|done|done|..]; [|by apply (all_chars_mem uri_safe)..].
  simpl. do 2 right. by left.
Qed.

(** X1: a login whose body is JSON with a [password] is answered 200 exactly
    when the password is a string equal to the admin secret or to the team
    secret; every other password is answered 401 and sets no cookie. *)
Theorem login_answers (c : Context) (body : json) (password : option json) :
  req_json c = Return body →
  prop (Some body) "password" = Return password →
  let r := serve_cookie (handleLogin c) in
  (status r.1 = 200 ↔
     password = Some (JStr (ADMIN_PASSWORD (env c)))
     ∨ password = Some (JStr (TEAM_PASSWORD (env c))))
  ∧ (status r.1 = 200 ∨ r = (login_refused, None))
  ∧ status login_refused = 401.
Proof.
  intros Hb Hp r. subst r. unfold handleLogin. rewrite Hb, Hp.
  destruct (is_text password (ADMIN_PASSWORD (env c))) eqn:Ha.
  { apply is_text_true in Ha. simpl. split_and!; [|by left|done]. split; auto. }
  destruct (is_text password (TEAM_PASSWORD (env c))) eqn:Ht.
  { apply is_text_true in Ht. simpl. split_and!; [|by left|done]. split; auto. }
  simpl. split_and!; [|by right|done]. split; [done|].
  intros [H|H]; apply is_text_true in H; congruence.
Qed.

Lemma login_answers_witness :
  let c := request sample_env None "" ∅ (Return (JObj [("password", JStr "nope")])) in
  serve_cookie (handleLogin c) = (login_refused, None).
Proof.
  intros c.
  destruct (login_answers c (JObj [("password", JStr "nope")]) (Some (JStr "nope")))
    as (H1 & [H2|H2] & _); [reflexivity|reflexivity| |exact H2].
  apply H1 in H2 as [[=]|[=]].
Defined.

(** X2: the cookie a login issues resolves to the level the answer names: a
    later request of the same deployment that carries the browser's cookie
    after the login resolves to ADMIN when the answer says [admin] and to
    TEAM when it says [team]; a refused login leaves the cookie as it was. *)
Theorem login_round_trip (c c' : Context) (r : Response) (a : option CookieAction)
    (jar : option string) :
  handleLogin c = Return (r, a) →
  env c' = env c →
  cookie c' = jar_after jar a →
  (r = login_ok "admin" → checkAuth c' = ADMIN)
  ∧ (r = login_ok "team" → checkAuth c' = TEAM)
  ∧ (r = login_refused → cookie c' = jar)
  ∧ (r = login_ok "admin" ∨ r = login_ok "team" ∨ r = login_refused).
Proof.
  unfold handleLogin. intros Hl He Hc.
  destruct (req_json c) as [body|e]; [|done].
  destruct (prop (Some body) "password") as [password|e]; [|done].
  destruct (is_text password (ADMIN_PASSWORD (env c))) eqn:Ha.
  { injection Hl as <- <-. simpl in Hc. split_and!; try done; [|by left].
    intros _. apply checkAuth_ADMIN. by rewrite Hc, He. }
  destruct (is_text password (TEAM_PASSWORD (env c))) eqn:Ht.
  { injection Hl as <- <-. simpl in Hc. split_and!; try done; [|by right; left].
    intros _. apply checkAuth_TEAM. rewrite Hc, He. split; [done|].
    intros Heq. apply is_text_true in Ht. rewrite Heq in Ht.
    apply is_text_true in Ht. congruence. }
  injection Hl as <- <-. simpl in Hc. split_and!; try done. by right; right.
Qed.

Lemma login_round_trip_witness :
  let c := request sample_env None "" ∅ (Return (JObj [("password", JStr "admin-secret")])) in
  checkAuth (with_cookie c (jar_after None (serve_cookie (handleLogin c)).2)) = ADMIN.
Proof.
  intros c.
  refine (proj1 (login_round_trip c (with_cookie c _) (login_ok "admin")
                   (Some (auth_cookie "admin-secret")) None _ _ _) _); reflexivity.
Defined.
